(** * word-pouch: the stash layer

    A shallow embedding of the stash modules of word-pouch
    ([src/stash/common.ts], the legacy [StashModule] and the
    [SentencesModule]) together with the properties stated about them.

    JavaScript objects used as maps ([state.all], table rows, entry
    fields) are finite maps; asynchronous methods are sequential
    computations (the program is single threaded and suspends only at
    persistence calls); [throw] is an explicit [Throw] result; every
    assignment to module state and every write issued to a table is
    recorded in an effect trace, in program order. *)

From stdpp Require Import gmap strings list fin_maps.
From Stdlib Require Import ZArith.

Set Default Proof Using "Type".

(** ** Values, entries and journals *)

(** Field values.  The model covers the primitive values on which [===]
    is plain equality: integers, strings and booleans.  [NaN], which is
    not [===] to itself, and arrays and objects, which [===] compares
    by reference and [modify] hands to its callback as fresh copies,
    are outside the model. *)
Inductive value :=
| VNum (n : Z)
| VStr (s : string)
| VBool (b : bool).

#[global] Instance value_eq_dec : EqDecision value.
Proof. solve_decision. Defined.

(** [DBEntry]: an object with a numeric [id] and further fields
    ([journalId], [text], ...) addressed by name.  The [key] arguments
    below range over [keyof Omit<K, 'id'>], so [id] is kept apart. *)
Record DBEntry := mkEntry {
  entry_id : Z;
  fields : gmap string value
}.

#[global] Instance DBEntry_eq_dec : EqDecision DBEntry.
Proof. solve_decision. Defined.

(** [entry[key] = v] *)
Definition set_field (key : string) (v : value) (e : DBEntry) : DBEntry :=
  mkEntry (entry_id e) (<[key := v]> (fields e)).

(** [entry[key] === v] on the values of the model; a missing field
    reads [undefined], which is not [===] to any of them. *)
Definition strict_eq (o : option value) (v : value) : bool :=
  bool_decide (o = Some v).

(** [Journal] of [@/api/db]; only its [id] is read by the stash layer. *)
Record Journal := mkJournal {
  journal_id : Z;
  journal_name : string
}.

(** ** Results, effects and the computation monad *)

Inductive error :=
| EntryAlreadyExists (id : Z)        (* <module>/add: Entry <id> already exists. *)
| ActiveJournalNotSet (method : string)  (* <module>/<method>: Active journal is not set. *)
| EntryNotValid (id : Z)             (* <module>/setSelectedIds: Entry #<id> is not valid. *)
| SentenceNotValid (id : Z)          (* sentences/delete: Sentence #<id> is not valid in the active Journal. *)
| CannotCreateSentences              (* sentences/new: Cannot create new Sentences. *)
| ConstraintError (key : Z).         (* raised by the table: the key already exists *)

Inductive result (A : Type) :=
| Ok (a : A)
| Throw (e : error).
Arguments Ok {A} a.
Arguments Throw {A} e.

#[global] Instance error_eq_dec : EqDecision error.
Proof. solve_decision. Defined.

#[global] Instance result_eq_dec {A} `{EqDecision A} : EqDecision (result A).
Proof. solve_decision. Defined.

(** The observable effects of a method, in program order. *)
Inductive event :=
| StateWrite   (* an assignment to state.all, to state.selectedIds or to a field of a loaded entry *)
| TableWrite   (* a put, add or delete issued to a table *)
| Committed    (* the enclosing transaction, explicit or implicit, has committed *)
| Aborted.     (* the enclosing transaction was rolled back *)

#[global] Instance event_eq_dec : EqDecision event.
Proof. solve_decision. Defined.

Definition is_state_write (e : event) : bool :=
  match e with StateWrite => true | _ => false end.

(** The trace contains no write to the in-memory state. *)
Definition writes_no_state (t : list event) : bool :=
  forallb (λ e, negb (is_state_write e)) t.

(** The trace consists of writes to the in-memory state only. *)
Definition only_state_writes (t : list event) : bool :=
  forallb is_state_write t.

(** Every write to the in-memory state comes after all persistence
    activity of the trace: once the state has been written, no table
    write, commit or rollback follows. *)
Fixpoint state_after_persistence (t : list event) : bool :=
  match t with
  | [] => true
  | StateWrite :: t' => only_state_writes t'
  | _ :: t' => state_after_persistence t'
  end.

(** The in-memory state is written only after the transaction has
    committed: a state write is allowed only when the last persistence
    event before it is a commit ([committed] tells whether it is), and
    then nothing but state writes may follow.  A state write with no
    commit before it, after a table write still uncommitted, or after a
    rollback, is refused. *)
Fixpoint after_commit (committed : bool) (t : list event) : bool :=
  match t with
  | [] => true
  | StateWrite :: t' => committed && only_state_writes t'
  | Committed :: t' => after_commit true t'
  | TableWrite :: t' => after_commit false t'
  | Aborted :: t' => after_commit false t'
  end.

Definition state_only_after_commit (t : list event) : bool :=
  after_commit false t.

Record outcome (S A : Type) := Outcome {
  returned : result A;
  after : S;
  effects : list event
}.
Arguments Outcome {S A} returned after effects.
Arguments returned {S A} o.
Arguments after {S A} o.
Arguments effects {S A} o.

Definition M (S A : Type) : Type := S → outcome S A.

Definition ret {S A} (a : A) : M S A := λ s, Outcome (Ok a) s [].

Definition throw {S A} (e : error) : M S A := λ s, Outcome (Throw e) s [].

Definition bind {S A B} (m : M S A) (k : A → M S B) : M S B := λ s,
  let o := m s in
  match returned o with
  | Ok a =>
      let o' := k a (after o) in
      Outcome (returned o') (after o') (effects o ++ effects o')
  | Throw e => Outcome (Throw e) (after o) (effects o)
  end.

Notation "'let*' x ':=' m 'in' k" := (bind m (λ x, k))
  (at level 10, x name, m at level 100, k at level 200, only parsing).

(** Read the current state. *)
Definition ask {S} : M S S := λ s, Outcome (Ok s) s [].

(** Replace the state, recording the effects of the replacement. *)
Definition mutate {S} (f : S → S) (evs : list event) : M S unit :=
  λ s, Outcome (Ok tt) (f s) evs.

(** [list.forEach(f)]: run [f] on each element in order; an exception
    thrown by [f] ends the loop. *)
Fixpoint forEach {S A} (f : A → M S unit) (l : list A) : M S unit :=
  match l with
  | [] => ret tt
  | x :: l' => let* _ := f x in forEach f l'
  end.

(** Calling an [async] function without [await]: its synchronous body
    runs, its effects happen, but an exception only rejects the returned
    promise and never reaches the caller. *)
Definition unawaited {S A} (m : M S A) : M S unit := λ s,
  let o := m s in Outcome (Ok tt) (after o) (effects o).

(** Run a computation of a component inside a larger state. *)
Definition zoom {S T A} (view : S → T) (put : T → S → S) (m : M T A) : M S A :=
  λ s, let o := m (view s) in
       Outcome (returned o) (put (after o) s) (effects o).

(** A promise as seen by synchronous code. *)
Inductive Promise (A : Type) :=
| Fulfilled (a : A)
| Rejected (e : error).
Arguments Fulfilled {A} a.
Arguments Rejected {A} e.

(** Truthiness of a promise object: every object is truthy, whatever the
    promise settles to. *)
Definition truthy {A} (p : Promise A) : bool := true.

(** ** The persistence layer (Dexie tables)

    Dexie is an external library; the operations used by the stash layer
    are modelled after its documented behaviour.  A table with the
    auto-incremented inbound primary key [++id] maps each key to the
    remaining fields of its row, and carries the key generator. *)

Record Table := mkTable {
  rows : gmap Z (gmap string value);
  keyGen : Z
}.

#[global] Instance Table_eq_dec : EqDecision Table.
Proof. solve_decision. Defined.

(** The key generator lies above every key in use, as the database
    maintains it. *)
Definition key_generator_ahead (t : Table) : Prop :=
  map_Forall (λ k _, (k < keyGen t)%Z) (rows t).

(** What a [modify] callback returned: Dexie skips the put of the row
    only when the callback returns exactly [false]. *)
Inductive cb_return := ReturnsFalse | ReturnsOther.

Module Dexie.

(** [table.get(id)] *)
Definition get (t : Table) (id : Z) : option DBEntry :=
  mkEntry id <$> rows t !! id.

(** [table.where({ id }).count()] *)
Definition count_id (t : Table) (id : Z) : nat :=
  match rows t !! id with Some _ => 1 | None => 0 end.

(** Writing a row read from the table back under its own key. *)
Definition write_back (e : DBEntry) (t : Table) : Table :=
  mkTable (<[entry_id e := fields e]> (rows t)) (keyGen t).

(** Run [body] as one transaction over the part [snapshot] of the
    state: when [body] throws, that part is restored and the exception
    is passed on; otherwise the transaction commits. *)
Definition transaction {S D A} (snapshot : S → D) (restore : D → S → S)
    (body : M S A) : M S A := λ s,
  let o := body s in
  match returned o with
  | Ok a => Outcome (Ok a) (after o) (effects o ++ [Committed])
  | Throw e =>
      Outcome (Throw e) (restore (snapshot s) (after o)) (effects o ++ [Aborted])
  end.

(** The body of [table.where({ id }).modify(callback)], as in Dexie 3,
    which the stash layer needs for [bulkGet]: the callback runs on a
    copy of each matching row (at most one, [id] being the primary
    key).  Dexie tests the callback's result against [false] only:
    unless the callback returns exactly [false], the copy is put back,
    changed or not.  The result is the number of matching rows,
    whatever the callback returned. *)
Definition modify_rows {S} (tbl : S → Table) (set_tbl : Table → S → S)
    (id : Z) (callback : DBEntry → M S (DBEntry * cb_return)) : M S nat :=
  let* s := ask in
  match get (tbl s) id with
  | None => ret 0%nat
  | Some dbEntry =>
      let* r := callback dbEntry in
      match r.2 with
      | ReturnsFalse => ret 1%nat
      | ReturnsOther =>
          let* _ := mutate (λ s', set_tbl (write_back r.1 (tbl s')) s') [TableWrite] in
          ret 1%nat
      end
  end.

(** [table.where({ id }).modify(callback)] called outside a
    transaction scope: it runs in a transaction of its own. *)
Definition modify {S} (tbl : S → Table) (set_tbl : Table → S → S)
    (id : Z) (callback : DBEntry → M S (DBEntry * cb_return)) : M S nat :=
  transaction tbl set_tbl (modify_rows tbl set_tbl id callback).

(** [table.update(id, { [key]: v })]: [modify] with the callback that
    assigns the changed properties and returns whether anything
    changed, so that identical data is not put; the result is that of
    [modify], 1 if a row has the key and 0 if none has. *)
Definition update {S} (tbl : S → Table) (set_tbl : Table → S → S)
    (id : Z) (key : string) (v : value) : M S nat :=
  modify tbl set_tbl id (λ dbEntry,
    if strict_eq (fields dbEntry !! key) v
    then ret (dbEntry, ReturnsFalse)
    else ret (set_field key v dbEntry, ReturnsOther)).

(** [table.add(item)] with a generated key: the key generator yields
    the key and advances; adding under an existing key is a
    constraint error. *)
Definition add (item : gmap string value) : M Table Z := λ t,
  let key := keyGen t in
  match rows t !! key with
  | Some _ => Outcome (Throw (ConstraintError key)) t []
  | None =>
      Outcome (Ok key) (mkTable (<[key := item]> (rows t)) (key + 1)) [TableWrite]
  end.

(** [table.bulkAdd(items, { allKeys: true })]; a failed [add] fails
    the whole call, and the enclosing transaction undoes the rest. *)
Fixpoint bulkAdd (items : list (gmap string value)) : M Table (list Z) :=
  match items with
  | [] => ret []
  | item :: items' =>
      let* key := add item in
      let* keys := bulkAdd items' in
      ret (key :: keys)
  end.

(** [table.bulkGet(keys)]: one result per key, [undefined] (here
    [None]) where no row has the key. *)
Definition bulkGet (t : Table) (keys : list Z) : list (option DBEntry) :=
  get t <$> keys.

(** [table.bulkDelete(keys)] *)
Definition bulkDelete (keys : list Z) : M Table unit :=
  mutate (λ t, mkTable (foldr delete (rows t) keys) (keyGen t)) [TableWrite].

End Dexie.

(** ** Utilities ([@/util]) and database helpers ([@/api/db]) *)

(** Modelled from the spec: the enumeration [UpdateMode] of [@/util] is
    not among the sources; "mode ∈ {Replace, Add, Remove}", and the
    sources use [UpdateMode.Replace] and [UpdateMode.Remove]. *)
Inductive UpdateMode := Replace | Add | Remove.

(** An argument of type [T | T[]]. *)
Inductive one_or_many (A : Type) :=
| One (a : A)
| Many (l : list A).
Arguments One {A} a.
Arguments Many {A} l.

Module Util.

(** Modelled from the spec: [wrapInArray] of [@/util] is not among the
    sources; the callers pass "a single id or a list of ids" and
    iterate over the result, so a single value becomes the one-element
    list and a list is kept. *)
Definition wrapInArray {A} (x : one_or_many A) : list A :=
  match x with
  | One a => [a]
  | Many l => l
  end.

(** Appending only values not already present, in input order. *)
Definition append_new (acc : list Z) (v : Z) : list Z :=
  if bool_decide (v ∈ acc) then acc else acc ++ [v].

(** Modelled from the spec: [updateArrayWithValues] of [@/util] is not
    among the sources.  "Replace discards the old list and uses the
    (deduplicated) input; Add unions while preserving existing order
    and appending only ids not already present; Remove filters out
    the given ids." *)
Definition updateArrayWithValues (array values : list Z) (mode : UpdateMode)
    : list Z :=
  match mode with
  | Replace => foldl append_new [] values
  | Add => foldl append_new array values
  | Remove => filter (λ x, x ∉ values) array
  end.

(** Modelled from the spec: [areArraysEqual] of [@/util] is not among
    the sources.  "set-equal and order-equal": the same values at the
    same positions. *)
Fixpoint areArraysEqual (a b : list Z) : bool :=
  match a, b with
  | [], [] => true
  | x :: a', y :: b' => (x =? y)%Z && areArraysEqual a' b'
  | _, _ => false
  end.

(** Modelled from the spec: [intersectArrays] of [@/util] is not among
    the sources.  "intersecting the previous selection with the newly
    loaded id set (ids no longer present are dropped from
    selection)". *)
Definition intersectArrays (a b : list Z) : list Z :=
  filter (λ x, x ∈ b) a.

(** Modelled from the spec: [reduceArrayToObject] of [@/util] is not
    among the sources.  It turns the bulk-loaded rows into the id to
    entry mapping that replaces [state.all]; keys that had no row
    contribute nothing. *)
Definition reduceArrayToObject (entries : list (option DBEntry))
    : gmap Z DBEntry :=
  foldl (λ acc o, match o with
                  | Some e => <[entry_id e := e]> acc
                  | None => acc
                  end) ∅ entries.

End Util.

(** Modelled from the spec: [isValidDBCommonEntry] of [@/api/db] is not
    among the sources.  "require both row existence and journalId equal
    to the active journal's id": exactly one row has this id and this
    journalId. *)
Definition isValidDBCommonEntry (t : Table) (id journalId : Z) : bool :=
  match rows t !! id with
  | Some f => strict_eq (f !! "journalId") (VNum journalId)
  | None => false
  end.

(** ** What a stash module reaches through [this] *)

Record Self := mkSelf {
  activeJournal : option Journal;  (* this.$stash.journals.active *)
  all : gmap Z DBEntry;            (* this.state.all *)
  selectedIds : list Z;            (* this.state.selectedIds *)
  table : Table                    (* this.table *)
}.

Definition with_all (a : gmap Z DBEntry) (s : Self) : Self :=
  mkSelf (activeJournal s) a (selectedIds s) (table s).

Definition with_selectedIds (l : list Z) (s : Self) : Self :=
  mkSelf (activeJournal s) (all s) l (table s).

Definition with_table (t : Table) (s : Self) : Self :=
  mkSelf (activeJournal s) (all s) (selectedIds s) t.

(** The second argument of [updateStateAndDb]: a value, or a function of
    the loaded entry. *)
Inductive Payload :=
| Literal (v : value)
| Deriver (f : DBEntry → value).

(** The value [updateStateAndDb] derives from its payload. *)
Definition payload_value (payload : Payload) (stateEntry : DBEntry) : value :=
  match payload with
  | Deriver f => f stateEntry
  | Literal v => v
  end.

(** [void | 0] *)
Inductive void_or_0 := Zero | Void.

(** ** [BaseStash] ([src/stash/common.ts]) *)

Module BaseStash.

(** [reset()] is [Object.assign(this.state, new this.StateClass())]; for
    the state class [CommonEntryStashState] the fresh state has
    [all = {}] and [selectedIds = []], and both properties are assigned
    to the existing state object, in this order. *)
Definition reset : M Self unit :=
  let* _ := mutate (with_all ∅) [StateWrite] in
  mutate (with_selectedIds []) [StateWrite].

End BaseStash.

(** ** [EntryStash] ([src/stash/common.ts]) *)

Module EntryStash.

(** [Object.keys(this.all).map(k => +k)]; the order of the ids is not
    significant. *)
Definition allIds (s : Self) : list Z := (map_to_list (all s)).*1.

Definition addToAll (value : DBEntry) : M Self unit :=
  let* s := ask in
  match all s !! entry_id value with
  | Some _ => throw (EntryAlreadyExists (entry_id value))
  | None => mutate (λ s', with_all (<[entry_id value := value]> (all s')) s') [StateWrite]
  end.

Definition get (id : Z) (s : Self) : option DBEntry := all s !! id.

Definition getFromDb (id : Z) (s : Self) : Promise (option DBEntry) :=
  Fulfilled (Dexie.get (table s) id).

Definition isValid (id : Z) (s : Self) : bool :=
  bool_decide (all s !! id ≠ None).

Definition isValidInDb (id : Z) (s : Self) : Promise bool :=
  Fulfilled (bool_decide (Dexie.count_id (table s) id = 1%nat)).

(** The callback handed to [modify]. Every path returns [undefined]:
    the bare [return], the value of [log.info(...)], and falling off
    the end. *)
Definition updater (key : string) (getValue : DBEntry → value)
    (dbEntry : DBEntry) : M Self (DBEntry * cb_return) :=
  let* s := ask in
  match get (entry_id dbEntry) s with
  | None => ret (dbEntry, ReturnsOther)
  | Some stateEntry =>
      let value := getValue stateEntry in
      if strict_eq (fields dbEntry !! key) value
      then ret (dbEntry, ReturnsOther)
      else
        let* _ := mutate (λ s', with_all (<[entry_id dbEntry := set_field key value stateEntry]> (all s')) s')
                         [StateWrite] in
        ret (set_field key value dbEntry, ReturnsOther)
  end.

Definition updateStateAndDb (id : Z) (key : string) (payload : Payload)
    : M Self nat :=
  let getValue := match payload with
                  | Deriver f => f
                  | Literal v => λ _, v
                  end in
  Dexie.modify table with_table id (updater key getValue).

End EntryStash.

(** ** [CommonEntryStash] ([src/stash/common.ts]) *)

Module CommonEntryStash.

Definition getFromDb (id : Z) (s : Self) : Promise (option DBEntry) :=
  match EntryStash.getFromDb id s with
  | Fulfilled entry =>
      match activeJournal s with
      | None => Rejected (ActiveJournalNotSet "getFromDb")
      | Some _ => Fulfilled entry
      end
  | Rejected e => Rejected e
  end.

Definition isValidInDb (id : Z) (s : Self) : Promise bool :=
  match activeJournal s with
  | None => Rejected (ActiveJournalNotSet "isValidInDb")
  | Some j => Fulfilled (isValidDBCommonEntry (table s) id (journal_id j))
  end.

Definition isValid (id : Z) : M Self bool :=
  let* s := ask in
  match activeJournal s with
  | None => throw (ActiveJournalNotSet "isValid")
  | Some j =>
      match EntryStash.get id s with
      | Some entry => ret (strict_eq (fields entry !! "journalId") (VNum (journal_id j)))
      | None => ret false
      end
  end.

(** The body of the validation loop of [setSelectedIds]. *)
Definition assert_valid (entryId : Z) : M Self unit :=
  let* valid := isValid entryId in
  if negb valid then throw (EntryNotValid entryId) else ret tt.

Definition setSelectedIds (entryIds : one_or_many Z) (updateMode : UpdateMode)
    : M Self void_or_0 :=
  let entryIdList := Util.wrapInArray entryIds in
  let* _ := forEach assert_valid entryIdList in
  let* s := ask in
  let newSelectedEntryIds :=
    Util.updateArrayWithValues (selectedIds s) entryIdList updateMode in
  if Util.areArraysEqual (selectedIds s) newSelectedEntryIds then ret Zero
  else
    let* _ := mutate (with_selectedIds newSelectedEntryIds) [StateWrite] in
    ret Void.

End CommonEntryStash.

(** The selection list holds distinct ids, each of which [isValid]
    accepts. *)
Definition selection_consistent (s : Self) : Prop :=
  NoDup (selectedIds s) ∧
  ∀ id, id ∈ selectedIds s → returned (CommonEntryStash.isValid id s) = Ok true.

(** ** The legacy [StashModule] *)

Module StashModule.

Definition setAll (value : gmap Z DBEntry) : M Self unit :=
  mutate (with_all value) [StateWrite].

(** Returns 0 on failure, as its documentation says. *)
Definition addToAll (value : DBEntry) : M Self void_or_0 :=
  let* s := ask in
  match all s !! entry_id value with
  | Some _ => ret Zero
  | None =>
      let* _ := setAll (<[entry_id value := value]> (all s)) in
      ret Void
  end.

Definition get (id : Z) (s : Self) : option DBEntry := all s !! id.

Definition updateStateAndDb (id : Z) (key : string) (value : value)
    : M Self void_or_0 :=
  let* s := ask in
  match get id s with
  | None => ret Zero
  | Some entry =>
      if strict_eq (fields entry !! key) value then ret Zero
      else
        (* set the value in the state *)
        let* _ := mutate (λ s', with_all (<[id := set_field key value entry]> (all s')) s')
                         [StateWrite] in
        (* update the db *)
        let* result := Dexie.update table with_table id key value in
        if bool_decide (result = 0%nat) then ret Zero else ret Void
  end.

(** [delete this.all[value.id]] *)
Definition removeFromAll (value : DBEntry) : M Self unit :=
  mutate (λ s, with_all (delete (entry_id value) (all s)) s) [StateWrite].

(** The warning logged for a missing record does not change the result. *)
Definition getFromDb (id : Z) (s : Self) : Promise (option DBEntry) :=
  Fulfilled (Dexie.get (table s) id).

(** [vetIds(ids?)]: the argument is tested for truthiness, and an array,
    even an empty one, is truthy; only a missing argument gives all
    ids. *)
Definition vetIds (ids : option (list Z)) (s : Self) : list Z :=
  let allIds := (map_to_list (all s)).*1 in
  match ids with
  | Some given => filter (λ id, id ∈ given) allIds
  | None => allIds
  end.

End StashModule.

(** ** The root context and the database as the sentences module sees them *)

(** Modelled from the spec: the schema of [db.sentencesInResources] is
    not among the sources; its rows are the "relationship-table rows"
    that link a sentence (the indexed field [sentenceId]) to a
    resource. *)
Record Link := mkLink {
  sentenceId : Z;
  resourceId : Z
}.

#[global] Instance Link_eq_dec : EqDecision Link.
Proof. solve_decision. Defined.

Record WordPouch := mkDb {
  sentences : Table;                  (* db.sentences *)
  sentencesInResources : list Link    (* db.sentencesInResources *)
}.

Record Root := mkRoot {
  journals_active : option Journal;     (* $stash.journals.active *)
  resources_selectedIds : list Z;       (* $stash.resources.state.selectedIds *)
  sentences_all : gmap Z DBEntry;       (* $stash.sentences.state.all *)
  sentences_selectedIds : list Z;       (* $stash.sentences.state.selectedIds *)
  db : WordPouch
}.

Definition with_db (d : WordPouch) (w : Root) : Root :=
  mkRoot (journals_active w) (resources_selectedIds w) (sentences_all w)
         (sentences_selectedIds w) d.

Definition with_resources_selectedIds (l : list Z) (w : Root) : Root :=
  mkRoot (journals_active w) l (sentences_all w) (sentences_selectedIds w) (db w).

Definition with_sentences_all (a : gmap Z DBEntry) (w : Root) : Root :=
  mkRoot (journals_active w) (resources_selectedIds w) a (sentences_selectedIds w) (db w).

Definition with_sentences (t : Table) (d : WordPouch) : WordPouch :=
  mkDb t (sentencesInResources d).

Definition with_sentencesInResources (l : list Link) (d : WordPouch) : WordPouch :=
  mkDb (sentences d) l.

(** [this] of the sentences module: its state, its table [db.sentences]
    and the active journal of the root. *)
Definition self_of (w : Root) : Self :=
  mkSelf (journals_active w) (sentences_all w) (sentences_selectedIds w)
         (sentences (db w)).

Definition put_self (s : Self) (w : Root) : Root :=
  mkRoot (journals_active w) (resources_selectedIds w) (all s) (selectedIds s)
         (with_sentences (table s) (db w)).

(** A method inherited from [CommonEntryStash], run by the sentences module. *)
Definition inherited {A} (m : M Self A) : M Root A := zoom self_of put_self m.

(** An operation on [this.table], run inside the root. *)
Definition on_table {A} (m : M Table A) : M Root A :=
  zoom (λ w, sentences (db w)) (λ t w, with_db (with_sentences t (db w)) w) m.

(** Modelled from the spec: the class [Sentence] of [@/api/db] is not
    among the sources; it is constructed from a text and the id of the
    owning journal, and the table assigns its [id]. *)
Definition Sentence (text : string) (journalId : Z) : gmap string value :=
  {[ "text" := VStr text; "journalId" := VNum journalId ]}.

(** Modelled from the spec: [getResourceSentenceIds] of [@/api/db] is
    not among the sources; it "resolve[s] the set of child ids belonging
    to" the resource from the relationship table. *)
Definition getResourceSentenceIds (d : WordPouch) (resource : Z) : list Z :=
  sentenceId <$> filter (λ l, resourceId l = resource) (sentencesInResources d).

(** ** [SentencesModule] *)

Module SentencesModule.

(** [this.$stash.resources.selectedIds.shift()]: the getter returns the
    array held by the resources module, and [shift] removes its first
    element in place; on an empty array it returns [undefined]. *)
Definition shift_selected_resource : M Root (option Z) := λ w,
  match resources_selectedIds w with
  | [] => Outcome (Ok None) w []
  | first :: rest =>
      Outcome (Ok (Some first)) (with_resources_selectedIds rest w) [StateWrite]
  end.

Definition fetchResourceSentences : M Root unit :=
  let* w := ask in
  match journals_active w with
  | None => throw (ActiveJournalNotSet "fetchResourceSentences")
  | Some _ =>
      (* use the first selected resource *)
      let* selectedResourceId := shift_selected_resource in
      match selectedResourceId with
      | None => ret tt
      | Some resource =>
          if (resource =? 0)%Z then ret tt
          else
            let* w1 := ask in
            let sentenceIds := getResourceSentenceIds (db w1) resource in
            let loaded := Dexie.bulkGet (sentences (db w1)) sentenceIds in
            let* _ := mutate (with_sentences_all (Util.reduceArrayToObject loaded))
                             [StateWrite] in
            (* re-select previously selected sentences *)
            let* w2 := ask in
            unawaited (inherited (CommonEntryStash.setSelectedIds
              (Many (Util.intersectArrays (selectedIds (self_of w2))
                                          (EntryStash.allIds (self_of w2))))
              Replace))
      end
  end.

Definition new (texts : one_or_many string) : M Root (list Z) :=
  let* w := ask in
  match journal_id <$> journals_active w with
  | None => throw (ActiveJournalNotSet "new")
  | Some activeJournalId =>
      if (activeJournalId =? 0)%Z then throw (ActiveJournalNotSet "new")
      else
        let textList := Util.wrapInArray texts in
        Dexie.transaction db with_db (
          let* newSentenceIds :=
            on_table (Dexie.bulkAdd ((λ text, Sentence text activeJournalId) <$> textList)) in
          let* w' := ask in
          let newSentences := Dexie.bulkGet (sentences (db w')) newSentenceIds in
          if bool_decide (length newSentences ≠ length textList)
          then throw CannotCreateSentences
          else ret newSentenceIds)
  end.

(** [db.sentencesInResources.where('sentenceId').anyOf(ids).delete()] *)
Definition delete_links (ids : list Z) : M Root unit :=
  mutate (λ w, with_db (with_sentencesInResources
                          (filter (λ l, sentenceId l ∉ ids) (sentencesInResources (db w)))
                          (db w)) w)
         [TableWrite].

(** The guard of [delete]: [this.isValidInDb(sentenceId)] is an
    [async] call and is negated as it is, without [await]. *)
Definition delete_guard (sentenceId : Z) : M Root unit :=
  let* w := ask in
  if negb (truthy (CommonEntryStash.isValidInDb sentenceId (self_of w)))
  then throw (SentenceNotValid sentenceId)
  else ret tt.

Section relink.

(** [putSentenceInResource] of [@/api/db] is not among the sources:
    it is taken as any operation on the database, which either
    fails or yields the database it has written. *)
Variable putSentenceInResource : Z → Z → Z → WordPouch → result WordPouch.

Definition run_putSentenceInResource (sentence resource journal : Z)
    : M Root unit := λ w,
  match putSentenceInResource sentence resource journal (db w) with
  | Ok d => Outcome (Ok tt) (with_db d w) [TableWrite]
  | Throw e => Outcome (Throw e) w []
  end.

Definition putSentencesInResource (sentenceIds : list Z) (resource : Z)
    : M Root unit :=
  let* w := ask in
  match journal_id <$> journals_active w with
  | None => throw (ActiveJournalNotSet "putSentencesInResource")
  | Some activeJournalId =>
      if (activeJournalId =? 0)%Z
      then throw (ActiveJournalNotSet "putSentencesInResource")
      else
        Dexie.transaction db with_db
          (forEach (λ sentence,
                      run_putSentenceInResource sentence resource activeJournalId)
                   sentenceIds)
  end.

End relink.

Definition delete (sentenceIds : one_or_many Z) : M Root unit :=
  let sentenceIdList := Util.wrapInArray sentenceIds in
  let* _ := forEach delete_guard sentenceIdList in
  let* _ := Dexie.transaction db with_db (
              (* delete sentences from the db *)
              let* _ := on_table (Dexie.bulkDelete sentenceIdList) in
              (* delete sentence-resource links *)
              delete_links sentenceIdList) in
  (* adjust selected ids *)
  let* _ := inherited (CommonEntryStash.setSelectedIds (Many sentenceIdList) Remove) in
  (* re-fetch sentences in case some were deleted from the selected source *)
  fetchResourceSentences.

End SentencesModule.

(** The database once the rows [ids] and the links that refer to them
    are deleted. *)
Definition without_sentences (ids : list Z) (d : WordPouch) : WordPouch :=
  mkDb (mkTable (foldr delete (rows (sentences d)) ids) (keyGen (sentences d)))
       (filter (λ l, sentenceId l ∉ ids) (sentencesInResources d)).

(** ** The selection mutations of the collection store *)

(** [array.findIndex(p)], with [None] for -1. *)
Fixpoint findIndex {A} (p : A → bool) (l : list A) : option nat :=
  match l with
  | [] => None
  | x :: l' => if p x then Some 0%nat else S <$> findIndex p l'
  end.

Module Collection.

Section selection.

(** The class [CollectionList] is not among the sources; the mutations
    read nothing but its [id], a string. *)
Variable CollectionList : Type.
Variable id : CollectionList → string.

(** [selectedList => selectedList.id === list.id] *)
Definition same_id (lst selectedList : CollectionList) : bool :=
  bool_decide (id selectedList = id lst).

(** The mutations act on [state.selectedLists]. *)
Definition SELECT_LIST (lst : CollectionList) (selectedLists : list CollectionList)
    : list CollectionList :=
  match findIndex (same_id lst) selectedLists with
  | Some _ => selectedLists             (* do not select the same list twice *)
  | None => selectedLists ++ [lst]      (* push *)
  end.

Definition DESELECT_LIST (lst : CollectionList) (selectedLists : list CollectionList)
    : list CollectionList :=
  match findIndex (same_id lst) selectedLists with
  | None => selectedLists
  | Some index => delete index selectedLists   (* splice(index, 1) *)
  end.

(** [state.selectedLists.splice(0)] *)
Definition DESELECT_ALL_LISTS (selectedLists : list CollectionList)
    : list CollectionList := [].

End selection.

End Collection.

Arguments Collection.same_id {CollectionList} id lst selectedList.
Arguments Collection.SELECT_LIST {CollectionList} id lst selectedLists.
Arguments Collection.DESELECT_LIST {CollectionList} id lst selectedLists.
Arguments Collection.DESELECT_ALL_LISTS {CollectionList} selectedLists.

(** ** Example states used by the witnesses and counterexamples *)

Module Examples.

Definition journal1 : Journal := mkJournal 1 "Default Journal".

(** Two persisted sentences: #1 in journal 1, #2 in journal 2. *)
Definition sentences_table : Table :=
  mkTable {[ 1%Z := Sentence "a" 1; 2%Z := Sentence "b" 2 ]} 3.

Definition sentence1 : DBEntry := mkEntry 1 (Sentence "a" 1).

(** Sentence #1 is loaded and selected. *)
Definition loaded : Self :=
  mkSelf (Some journal1) {[ 1%Z := sentence1 ]} [1%Z] sentences_table.

(** Nothing is loaded. *)
Definition not_loaded : Self :=
  mkSelf (Some journal1) ∅ [] sentences_table.

(** Sentence #1 is loaded, but its row is gone from the table. *)
Definition row_missing : Self :=
  mkSelf (Some journal1) {[ 1%Z := sentence1 ]} [1%Z] (mkTable ∅ 3).

(** Resource #5 is selected and holds both sentences. *)
Definition root : Root :=
  mkRoot (Some journal1) [5%Z] {[ 1%Z := sentence1 ]} [1%Z]
         (mkDb sentences_table [mkLink 1 5; mkLink 2 5]).

(** No resource is selected. *)
Definition root_no_parent : Root :=
  mkRoot (Some journal1) [] {[ 1%Z := sentence1 ]} [1%Z]
         (mkDb sentences_table [mkLink 1 5; mkLink 2 5]).

End Examples.

(** ** Basic facts about the computation monad *)

Lemma bind_Ok {S A B} (m : M S A) (k : A → M S B) (s s' : S) (a : A) (t : list event) :
  m s = Outcome (Ok a) s' t →
  bind m k s = Outcome (returned (k a s')) (after (k a s')) (t ++ effects (k a s')).
Proof. intros Hm. unfold bind. by rewrite Hm. Qed.

Lemma bind_Throw {S A B} (m : M S A) (k : A → M S B) (s s' : S) (e : error) (t : list event) :
  m s = Outcome (Throw e) s' t →
  bind m k s = Outcome (Throw e) s' t.
Proof. intros Hm. unfold bind. by rewrite Hm. Qed.

Lemma with_table_write_back_id (s : Self) (id : Z) (f : gmap string value) :
  rows (table s) !! id = Some f →
  with_table (Dexie.write_back (mkEntry id f) (table s)) s = s.
Proof.
  intros Hrow. destruct s as [j a sel [r k]]; simpl in *.
  unfold with_table, Dexie.write_back; simpl.
  by rewrite insert_id.
Qed.

Lemma strict_eq_true (o : option value) (v : value) :
  strict_eq o v = true ↔ o = Some v.
Proof. unfold strict_eq. by rewrite bool_decide_eq_true. Qed.

Lemma strict_eq_false (o : option value) (v : value) :
  strict_eq o v = false ↔ o ≠ Some v.
Proof. unfold strict_eq. by rewrite bool_decide_eq_false. Qed.

(** ** [EntryStash.updateStateAndDb], case by case *)

Section updateStateAndDb_cases.

Variables (s : Self) (id : Z) (key : string) (payload : Payload).

Let o := EntryStash.updateStateAndDb id key payload s.

(** No row has the id: nothing happens and the count is 0. *)
Lemma updateStateAndDb_no_row :
  rows (table s) !! id = None →
  o = Outcome (Ok 0%nat) s [Committed].
Proof.
  intros Hrow. subst o.
  unfold EntryStash.updateStateAndDb, Dexie.modify, Dexie.transaction,
    Dexie.modify_rows, Dexie.get, bind, ask, ret; simpl.
  rewrite Hrow; simpl. done.
Qed.

(** The row exists but the entry is not loaded: the callback returns
    at once, the untouched copy is put back and counted. *)
Lemma updateStateAndDb_row_not_loaded (f : gmap string value) :
  rows (table s) !! id = Some f →
  all s !! id = None →
  o = Outcome (Ok 1%nat) s [TableWrite; Committed].
Proof.
  intros Hrow Hst. subst o.
  unfold EntryStash.updateStateAndDb, Dexie.modify, Dexie.transaction,
    Dexie.modify_rows, Dexie.get, EntryStash.updater, EntryStash.get,
    bind, ask, ret, mutate; simpl.
  rewrite Hrow; simpl. rewrite Hst; simpl.
  by rewrite with_table_write_back_id.
Qed.

(** The row exists, the entry is loaded and the row already holds the
    value: again the untouched copy is put back and counted. *)
Lemma updateStateAndDb_row_same_value (f : gmap string value) (stateEntry : DBEntry) :
  rows (table s) !! id = Some f →
  all s !! id = Some stateEntry →
  f !! key = Some (payload_value payload stateEntry) →
  o = Outcome (Ok 1%nat) s [TableWrite; Committed].
Proof.
  intros Hrow Hst Hval. subst o.
  unfold EntryStash.updateStateAndDb, Dexie.modify, Dexie.transaction,
    Dexie.modify_rows, Dexie.get, EntryStash.updater, EntryStash.get,
    bind, ask, ret, mutate; simpl.
  rewrite Hrow; simpl. rewrite Hst; simpl.
  assert (strict_eq (f !! key) (payload_value payload stateEntry) = true) as Heq
    by by apply strict_eq_true.
  destruct payload as [v|g]; simpl in *; rewrite Heq; simpl;
    by rewrite with_table_write_back_id.
Qed.

(** The row exists, the entry is loaded and the value differs: the
    loaded entry is assigned inside the callback, then the row is put. *)
Lemma updateStateAndDb_row_new_value (f : gmap string value) (stateEntry : DBEntry) :
  rows (table s) !! id = Some f →
  all s !! id = Some stateEntry →
  f !! key ≠ Some (payload_value payload stateEntry) →
  let v := payload_value payload stateEntry in
  o = Outcome (Ok 1%nat)
        (mkSelf (activeJournal s)
                (<[id := set_field key v stateEntry]> (all s))
                (selectedIds s)
                (mkTable (<[id := <[key := v]> f]> (rows (table s))) (keyGen (table s))))
        [StateWrite; TableWrite; Committed].
Proof.
  intros Hrow Hst Hval v. subst o v.
  unfold EntryStash.updateStateAndDb, Dexie.modify, Dexie.transaction,
    Dexie.modify_rows, Dexie.get, EntryStash.updater, EntryStash.get,
    bind, ask, ret, mutate; simpl.
  rewrite Hrow; simpl. rewrite Hst; simpl.
  assert (strict_eq (f !! key) (payload_value payload stateEntry) = false) as Heq
    by by apply strict_eq_false.
  destruct payload as [v|g]; simpl in *; rewrite Heq; simpl; done.
Qed.

End updateStateAndDb_cases.

(** ** The legacy [StashModule.updateStateAndDb], case by case *)

Section legacy_updateStateAndDb_cases.

Variables (s : Self) (id : Z) (key : string) (v : value).

Let o := StashModule.updateStateAndDb id key v s.

Lemma legacy_update_not_loaded :
  all s !! id = None → o = Outcome (Ok Zero) s [].
Proof.
  intros Hst. subst o.
  unfold StashModule.updateStateAndDb, StashModule.get, bind, ask, ret; simpl.
  by rewrite Hst.
Qed.

Lemma legacy_update_same_value (entry : DBEntry) :
  all s !! id = Some entry → fields entry !! key = Some v →
  o = Outcome (Ok Zero) s [].
Proof.
  intros Hst Hval. subst o.
  unfold StashModule.updateStateAndDb, StashModule.get, bind, ask, ret; simpl.
  rewrite Hst. apply strict_eq_true in Hval. by rewrite Hval.
Qed.

(** The loaded entry is assigned first; the table has no such row, so
    [table.update] reports 0 and the method returns 0. *)
Lemma legacy_update_row_missing (entry : DBEntry) :
  all s !! id = Some entry → fields entry !! key ≠ Some v →
  rows (table s) !! id = None →
  o = Outcome (Ok Zero)
        (with_all (<[id := set_field key v entry]> (all s)) s)
        [StateWrite; Committed].
Proof.
  intros Hst Hval Hrow. subst o.
  unfold StashModule.updateStateAndDb, StashModule.get, bind, ask, ret, mutate; simpl.
  rewrite Hst. apply strict_eq_false in Hval. rewrite Hval; simpl.
  unfold Dexie.update, Dexie.modify, Dexie.transaction, Dexie.modify_rows,
    Dexie.get, bind, ask, ret; simpl.
  by rewrite Hrow.
Qed.

(** The loaded entry is assigned first; then the row is written, or
    left alone when it already holds the value. *)
Lemma legacy_update_row_present (entry : DBEntry) (f : gmap string value) :
  all s !! id = Some entry → fields entry !! key ≠ Some v →
  rows (table s) !! id = Some f →
  effects o = (if strict_eq (f !! key) v
               then [StateWrite; Committed]
               else [StateWrite; TableWrite; Committed]) ∧
  all (after o) = <[id := set_field key v entry]> (all s).
Proof.
  intros Hst Hval Hrow. subst o.
  unfold StashModule.updateStateAndDb, StashModule.get, bind, ask, ret, mutate; simpl.
  rewrite Hst. apply strict_eq_false in Hval. rewrite Hval; simpl.
  unfold Dexie.update, Dexie.modify, Dexie.transaction, Dexie.modify_rows,
    Dexie.get, bind, ask, ret, mutate; simpl.
  rewrite Hrow; simpl.
  destruct (strict_eq (f !! key) v); simpl; done.
Qed.

End legacy_updateStateAndDb_cases.

(** With a row under the id, the whole outcome: the loaded entry is
    assigned, then [table.update] puts the row unless it holds the value
    already; the count it reports is 1 either way, so the method
    returns nothing. *)
Lemma legacy_update_row_present_outcome
    (s : Self) (id : Z) (key : string) (v : value)
    (entry : DBEntry) (f : gmap string value) :
  all s !! id = Some entry → fields entry !! key ≠ Some v →
  rows (table s) !! id = Some f →
  StashModule.updateStateAndDb id key v s
  = Outcome (Ok Void)
      (mkSelf (activeJournal s)
              (<[id := set_field key v entry]> (all s))
              (selectedIds s)
              (if strict_eq (f !! key) v then table s
               else mkTable (<[id := <[key := v]> f]> (rows (table s)))
                            (keyGen (table s))))
      (if strict_eq (f !! key) v
       then [StateWrite; Committed]
       else [StateWrite; TableWrite; Committed]).
Proof.
  intros Hst Hval Hrow.
  unfold StashModule.updateStateAndDb, StashModule.get, bind, ask, ret, mutate; simpl.
  rewrite Hst. apply strict_eq_false in Hval. rewrite Hval; simpl.
  unfold Dexie.update, Dexie.modify, Dexie.transaction, Dexie.modify_rows,
    Dexie.get, bind, ask, ret, mutate; simpl.
  rewrite Hrow; simpl.
  destruct (strict_eq (f !! key) v); simpl; done.
Qed.

(** ** [addToAll] *)

Lemma addToAll_fresh (s : Self) (value : DBEntry) :
  all s !! entry_id value = None →
  EntryStash.addToAll value s =
    Outcome (Ok tt) (with_all (<[entry_id value := value]> (all s)) s) [StateWrite].
Proof.
  intros Hnew. unfold EntryStash.addToAll, bind, ask, mutate, throw; simpl.
  by rewrite Hnew.
Qed.

Lemma addToAll_present (s : Self) (value existing : DBEntry) :
  all s !! entry_id value = Some existing →
  EntryStash.addToAll value s =
    Outcome (Throw (EntryAlreadyExists (entry_id value))) s [].
Proof.
  intros Hold. unfold EntryStash.addToAll, bind, ask, mutate, throw; simpl.
  by rewrite Hold.
Qed.

(** After any [addToAll], the id is in the loaded mapping. *)
Lemma addToAll_then_present (s : Self) (value : DBEntry) :
  is_Some (all (after (EntryStash.addToAll value s)) !! entry_id value).
Proof.
  destruct (all s !! entry_id value) as [e|] eqn:Hl.
  - rewrite (addToAll_present _ _ _ Hl); simpl. by rewrite Hl.
  - rewrite (addToAll_fresh _ _ Hl); simpl. by rewrite lookup_insert_eq.
Qed.

(** Adding the same entity twice in a row: the second call raises and
    changes nothing. *)
Lemma addToAll_twice (s : Self) (value : DBEntry) :
  let s1 := after (EntryStash.addToAll value s) in
  EntryStash.addToAll value s1
  = Outcome (Throw (EntryAlreadyExists (entry_id value))) s1 [].
Proof.
  intros s1. destruct (addToAll_then_present s value) as [e He].
  by apply (addToAll_present s1 value e).
Qed.

(** The legacy [StashModule.addToAll] reports a duplicate by returning 0,
    as documented, and leaves the mapping as it is. *)
Lemma legacy_addToAll_present (s : Self) (value existing : DBEntry) :
  all s !! entry_id value = Some existing →
  StashModule.addToAll value s = Outcome (Ok Zero) s [].
Proof.
  intros Hold. unfold StashModule.addToAll, bind, ask, ret; simpl.
  by rewrite Hold.
Qed.



(** C1 (as stated, refuted). Row #1 is persisted with text "a" and the
    entity is not loaded; after [updateStateAndDb(1, 'text', 'b')] the
    persisted row still holds "a": the update was not applied to it. *)
Lemma updateStateAndDb_not_loaded_row_keeps_value :
  let s := Examples.not_loaded in
  let o := EntryStash.updateStateAndDb 1 "text" (Literal (VStr "b")) s in
  all s !! 1%Z = None ∧
  rows (table s) !! 1%Z ≫= (.!! "text") = Some (VStr "a") ∧
  rows (table (after o)) !! 1%Z ≫= (.!! "text") = Some (VStr "a") ∧
  rows (table (after o)) !! 1%Z ≫= (.!! "text") ≠ Some (VStr "b").
Proof. vm_compute. repeat split; congruence. Qed.

(** C1 (amended). When the loaded-state copy of the entity is absent,
    [updateStateAndDb] changes nothing: the callback returns as soon as
    it finds no loaded entry, so the persisted row keeps its value, the
    in-memory state is unaffected, and no error is raised.  The legacy
    [StashModule.updateStateAndDb] returns 0 without reaching the
    table. *)
Theorem updateStateAndDb_not_loaded_changes_nothing
    (s : Self) (id : Z) (key : string) (payload : Payload) :
  all s !! id = None →
  let o := EntryStash.updateStateAndDb id key payload s in
  after o = s ∧
  rows (table (after o)) !! id = rows (table s) !! id ∧
  all (after o) = all s ∧
  (∃ n, returned o = Ok n) ∧
  writes_no_state (effects o) = true ∧
  (∀ v, StashModule.updateStateAndDb id key v s = Outcome (Ok Zero) s []).
Proof.
  intros Hst o. subst o.
  destruct (rows (table s) !! id) as [f|] eqn:Hrow.
  - rewrite (updateStateAndDb_row_not_loaded s id key payload f Hrow Hst); simpl.
    split_and!; try done; [by eexists|].
    intros v. by apply legacy_update_not_loaded.
  - rewrite (updateStateAndDb_no_row s id key payload Hrow); simpl.
    split_and!; try done; [by eexists|].
    intros v. by apply legacy_update_not_loaded.
Qed.

Lemma updateStateAndDb_not_loaded_changes_nothing_witness :
  after (EntryStash.updateStateAndDb 1 "text" (Literal (VStr "b")) Examples.not_loaded)
  = Examples.not_loaded.
Proof.
  exact (proj1 (updateStateAndDb_not_loaded_changes_nothing
                  Examples.not_loaded 1 "text" (Literal (VStr "b")) eq_refl)).
Defined.

(** C6 (what the code does). When the persisted row's field already
    equals the value, [updateStateAndDb] leaves the persisted row and
    the loaded copy unchanged and does not throw, but it returns 1, not
    0: the result is that of [modify], the number of rows matching the
    id, and as the callback returns [undefined], not [false], [modify]
    also puts the untouched copy back.  Only when no row matches the id
    is the result 0. *)
Theorem updateStateAndDb_same_value_returns_1
    (s : Self) (id : Z) (key : string) (payload : Payload)
    (f : gmap string value) (stateEntry : DBEntry) :
  rows (table s) !! id = Some f →
  all s !! id = Some stateEntry →
  f !! key = Some (payload_value payload stateEntry) →
  let o := EntryStash.updateStateAndDb id key payload s in
  returned o = Ok 1%nat ∧
  returned o ≠ Ok 0%nat ∧
  after o = s ∧
  effects o = [TableWrite; Committed].
Proof.
  intros Hrow Hst Hval o. subst o.
  rewrite (updateStateAndDb_row_same_value s id key payload f stateEntry Hrow Hst Hval).
  simpl. split_and!; done.
Qed.

Lemma updateStateAndDb_same_value_returns_1_witness :
  returned (EntryStash.updateStateAndDb 1 "text" (Literal (VStr "a")) Examples.loaded)
  = Ok 1%nat.
Proof.
  exact (proj1 (updateStateAndDb_same_value_returns_1
                  Examples.loaded 1 "text" (Literal (VStr "a"))
                  (Sentence "a" 1) Examples.sentence1 eq_refl eq_refl eq_refl)).
Defined.

(** ** The selection list: [setSelectedIds] *)

(** [isValid] only reads. *)
Lemma isValid_reads_only (id : Z) (s : Self) :
  after (CommonEntryStash.isValid id s) = s ∧
  effects (CommonEntryStash.isValid id s) = [].
Proof.
  unfold CommonEntryStash.isValid, bind, ask, ret, throw; simpl.
  destruct (activeJournal s); simpl; [|done].
  destruct (EntryStash.get id s); done.
Qed.

Lemma assert_valid_passes (id : Z) (s : Self) :
  returned (CommonEntryStash.isValid id s) = Ok true →
  CommonEntryStash.assert_valid id s = Outcome (Ok tt) s [].
Proof.
  intros Hv. destruct (isValid_reads_only id s) as [Ha He].
  unfold CommonEntryStash.assert_valid, bind.
  rewrite Hv, Ha, He. done.
Qed.

Lemma assert_valid_raises (id : Z) (s : Self) :
  returned (CommonEntryStash.isValid id s) ≠ Ok true →
  ∃ e, CommonEntryStash.assert_valid id s = Outcome (Throw e) s [].
Proof.
  intros Hv. destruct (isValid_reads_only id s) as [Ha He].
  unfold CommonEntryStash.assert_valid, bind.
  destruct (returned (CommonEntryStash.isValid id s)) as [[|]|e] eqn:Hr.
  - done.
  - exists (EntryNotValid id). rewrite Ha, He. done.
  - exists e. rewrite Ha, He. done.
Qed.

(** The validation loop either passes without any effect ... *)
Lemma validation_passes (ids : list Z) (s : Self) :
  (∀ id, id ∈ ids → returned (CommonEntryStash.isValid id s) = Ok true) →
  forEach CommonEntryStash.assert_valid ids s = Outcome (Ok tt) s [].
Proof.
  induction ids as [|id ids IH]; intros Hall; simpl; [done|].
  unfold bind. rewrite assert_valid_passes by (apply Hall; left).
  simpl. rewrite IH; [done|]. intros x Hx. apply Hall. by right.
Qed.

(** ... or raises at the first id that is not valid, without any effect. *)
Lemma validation_raises (ids : list Z) (s : Self) (bad : Z) :
  bad ∈ ids →
  returned (CommonEntryStash.isValid bad s) ≠ Ok true →
  ∃ e, forEach CommonEntryStash.assert_valid ids s = Outcome (Throw e) s [].
Proof.
  induction ids as [|id ids IH]; intros Hin Hbad; [by apply elem_of_nil in Hin|].
  simpl. unfold bind.
  destruct (decide (returned (CommonEntryStash.isValid id s) = Ok true)) as [Hid|Hid].
  - rewrite (assert_valid_passes _ _ Hid); simpl.
    apply elem_of_cons in Hin as [->|Hin]; [done|].
    destruct (IH Hin Hbad) as [e He]. exists e. by rewrite He.
  - destruct (assert_valid_raises _ _ Hid) as [e He]. exists e. by rewrite He.
Qed.

(** C4. For every input and every mode, if any single id of the input
    fails [isValid] (it is not loaded, belongs to another journal, or
    no journal is active), [setSelectedIds] raises an error and leaves
    the selection list, and the whole module, exactly as it was, even
    when the other ids of the batch are valid. *)
Theorem setSelectedIds_fails_atomically
    (s : Self) (entryIds : one_or_many Z) (updateMode : UpdateMode) (bad : Z) :
  bad ∈ Util.wrapInArray entryIds →
  returned (CommonEntryStash.isValid bad s) ≠ Ok true →
  let o := CommonEntryStash.setSelectedIds entryIds updateMode s in
  (∃ e, returned o = Throw e) ∧
  selectedIds (after o) = selectedIds s ∧
  after o = s ∧
  effects o = [].
Proof.
  intros Hin Hbad o. subst o.
  destruct (validation_raises _ s bad Hin Hbad) as [e He].
  unfold CommonEntryStash.setSelectedIds, bind. rewrite He; simpl.
  split_and!; try done. by exists e.
Qed.

Lemma setSelectedIds_fails_atomically_witness :
  selectedIds (after (CommonEntryStash.setSelectedIds (Many [1; 2]%Z) Add Examples.loaded))
  = [1%Z].
Proof.
  refine (proj1 (proj2 (setSelectedIds_fails_atomically
                   Examples.loaded (Many [1; 2]%Z) Add 2 _ _))).
  - simpl. apply list_elem_of_further, list_elem_of_here.
  - vm_compute. discriminate.
Defined.

(** *** The array helpers *)

Lemma areArraysEqual_spec (a b : list Z) :
  Util.areArraysEqual a b = true ↔ a = b.
Proof.
  revert b. induction a as [|x a IH]; intros [|y b]; simpl; try done.
  rewrite andb_true_iff, Z.eqb_eq, IH. split.
  - by intros [-> ->].
  - intros [= -> ->]. done.
Qed.

Lemma append_new_keeps (acc : list Z) (v x : Z) :
  x ∈ acc → x ∈ Util.append_new acc v.
Proof.
  intros Hx. unfold Util.append_new. case_bool_decide; [done|].
  apply elem_of_app. by left.
Qed.

Lemma append_new_adds (acc : list Z) (v : Z) : v ∈ Util.append_new acc v.
Proof.
  unfold Util.append_new. case_bool_decide; [done|].
  apply elem_of_app. right. apply list_elem_of_here.
Qed.

Lemma append_all_keeps (vs acc : list Z) (x : Z) :
  x ∈ acc → x ∈ foldl Util.append_new acc vs.
Proof.
  revert acc. induction vs as [|v vs IH]; intros acc Hx; simpl; [done|].
  by apply IH, append_new_keeps.
Qed.

Lemma append_all_adds (vs acc : list Z) (v : Z) :
  v ∈ vs → v ∈ foldl Util.append_new acc vs.
Proof.
  revert acc. induction vs as [|v' vs IH]; intros acc Hv; simpl.
  - by apply elem_of_nil in Hv.
  - apply elem_of_cons in Hv as [->|Hv].
    + apply append_all_keeps, append_new_adds.
    + by apply IH.
Qed.

Lemma append_all_absorbed (vs acc : list Z) :
  (∀ v, v ∈ vs → v ∈ acc) → foldl Util.append_new acc vs = acc.
Proof.
  revert acc. induction vs as [|v vs IH]; intros acc Hall; simpl; [done|].
  assert (Util.append_new acc v = acc) as ->.
  { unfold Util.append_new. rewrite bool_decide_eq_true_2; [done|].
    apply Hall. apply list_elem_of_here. }
  apply IH. intros x Hx. apply Hall. by apply list_elem_of_further.
Qed.

Lemma filter_twice (P : Z → Prop) `{∀ x, Decision (P x)} (l : list Z) :
  filter P (filter P l) = filter P l.
Proof.
  induction l as [|x l IH]; [done|].
  destruct (decide (P x)) as [HP|HP].
  - rewrite (filter_cons_True P x l HP), (filter_cons_True P x _ HP). by rewrite IH.
  - by rewrite (filter_cons_False P x l HP).
Qed.

(** Applying the same update twice gives what applying it once gives. *)
Lemma updateArrayWithValues_twice (array values : list Z) (mode : UpdateMode) :
  Util.updateArrayWithValues (Util.updateArrayWithValues array values mode) values mode
  = Util.updateArrayWithValues array values mode.
Proof.
  destruct mode; simpl.
  - done.
  - apply append_all_absorbed. intros v Hv. by apply append_all_adds.
  - apply filter_twice.
Qed.

(** *** What [setSelectedIds] does on a valid input *)

Lemma isValid_ignores_selection (id : Z) (l : list Z) (s : Self) :
  returned (CommonEntryStash.isValid id (with_selectedIds l s))
  = returned (CommonEntryStash.isValid id s).
Proof.
  unfold CommonEntryStash.isValid, EntryStash.get, bind, ask; simpl.
  destruct (activeJournal s); [|done].
  destruct (all s !! id); done.
Qed.

Lemma setSelectedIds_valid (s : Self) (entryIds : one_or_many Z) (mode : UpdateMode) :
  (∀ id, id ∈ Util.wrapInArray entryIds →
         returned (CommonEntryStash.isValid id s) = Ok true) →
  let new := Util.updateArrayWithValues (selectedIds s) (Util.wrapInArray entryIds) mode in
  CommonEntryStash.setSelectedIds entryIds mode s =
    if Util.areArraysEqual (selectedIds s) new
    then Outcome (Ok Zero) s []
    else Outcome (Ok Void) (with_selectedIds new s) [StateWrite].
Proof.
  intros Hall new. subst new.
  unfold CommonEntryStash.setSelectedIds, bind.
  rewrite (validation_passes _ s Hall); simpl.
  destruct (Util.areArraysEqual _ _); done.
Qed.

(** C7. [setSelectedIds] is idempotent: for every input whose ids are
    all valid and every mode, the first call succeeds, and a second call
    with the same arguments returns the sentinel 0 ("unchanged"),
    performs no mutation at all, and so leaves the selection list the
    first call produced. *)
Theorem setSelectedIds_idempotent
    (s : Self) (entryIds : one_or_many Z) (mode : UpdateMode) :
  (∀ id, id ∈ Util.wrapInArray entryIds →
         returned (CommonEntryStash.isValid id s) = Ok true) →
  let o1 := CommonEntryStash.setSelectedIds entryIds mode s in
  let o2 := CommonEntryStash.setSelectedIds entryIds mode (after o1) in
  (returned o1 = Ok Zero ∨ returned o1 = Ok Void) ∧
  selectedIds (after o1)
    = Util.updateArrayWithValues (selectedIds s) (Util.wrapInArray entryIds) mode ∧
  returned o2 = Ok Zero ∧
  selectedIds (after o2) = selectedIds (after o1) ∧
  after o2 = after o1 ∧
  effects o2 = [].
Proof.
  intros Hall o1 o2.
  assert (selectedIds (after o1)
          = Util.updateArrayWithValues (selectedIds s) (Util.wrapInArray entryIds) mode
          ∧ (returned o1 = Ok Zero ∨ returned o1 = Ok Void)
          ∧ ∀ id, returned (CommonEntryStash.isValid id (after o1))
                  = returned (CommonEntryStash.isValid id s)) as (Hsel & Hret & Hval).
  { subst o1 o2. rewrite (setSelectedIds_valid s entryIds mode Hall).
    destruct (Util.areArraysEqual _ _) eqn:Heq; simpl.
    - apply areArraysEqual_spec in Heq. split_and!; auto.
    - split_and!; auto. intros id. apply isValid_ignores_selection. }
  assert (o2 = Outcome (Ok Zero) (after o1) []) as Ho2.
  { subst o2. rewrite setSelectedIds_valid.
    - rewrite Hsel, updateArrayWithValues_twice.
      by rewrite (proj2 (areArraysEqual_spec _ _) eq_refl).
    - intros id Hid. rewrite Hval. by apply Hall. }
  rewrite Ho2; simpl. split_and!; done.
Qed.

Lemma setSelectedIds_idempotent_witness :
  returned (CommonEntryStash.setSelectedIds (Many [1; 1]%Z) Remove
              (after (CommonEntryStash.setSelectedIds (Many [1; 1]%Z) Remove
                        Examples.loaded)))
  = Ok Zero.
Proof.
  refine (proj1 (proj2 (proj2 (setSelectedIds_idempotent
                   Examples.loaded (Many [1; 1]%Z) Remove _)))).
  intros id Hid. simpl in Hid.
  apply elem_of_cons in Hid as [->|Hid]; [reflexivity|].
  apply list_elem_of_singleton in Hid as ->. reflexivity.
Defined.

(** *** Frame of [setSelectedIds] *)

(** Whatever the ids, the validation loop has no effect. *)
Lemma validation_reads_only (ids : list Z) (s : Self) :
  ∃ r, forEach CommonEntryStash.assert_valid ids s = Outcome r s [].
Proof.
  destruct (decide (Forall (λ id, returned (CommonEntryStash.isValid id s) = Ok true) ids))
    as [Hall|Hsome].
  - exists (Ok tt). apply validation_passes. by apply Forall_forall.
  - apply not_Forall_Exists in Hsome; [|apply _].
    apply Exists_exists in Hsome as (bad & Hin & Hbad).
    destruct (validation_raises ids s bad Hin Hbad) as [e He]. by exists (Throw e).
Qed.

(** [setSelectedIds] touches nothing but the selection list, and only
    ever writes in-memory state. *)
Lemma setSelectedIds_frame (s : Self) (entryIds : one_or_many Z) (mode : UpdateMode) :
  let o := CommonEntryStash.setSelectedIds entryIds mode s in
  activeJournal (after o) = activeJournal s ∧
  all (after o) = all s ∧
  table (after o) = table s ∧
  only_state_writes (effects o) = true.
Proof.
  intros o. subst o.
  destruct (validation_reads_only (Util.wrapInArray entryIds) s) as [r Hr].
  unfold CommonEntryStash.setSelectedIds, bind. rewrite Hr; simpl.
  destruct r as [[]|e]; simpl; [|done].
  destruct (Util.areArraysEqual _ _); done.
Qed.

Lemma with_sentences_same (d : WordPouch) : with_sentences (sentences d) d = d.
Proof. by destruct d. Qed.

Lemma inherited_setSelectedIds_frame
    (w : Root) (entryIds : one_or_many Z) (mode : UpdateMode) :
  let o := inherited (CommonEntryStash.setSelectedIds entryIds mode) w in
  journals_active (after o) = journals_active w ∧
  resources_selectedIds (after o) = resources_selectedIds w ∧
  sentences_all (after o) = sentences_all w ∧
  db (after o) = db w ∧
  only_state_writes (effects o) = true.
Proof.
  intros o. subst o.
  destruct (setSelectedIds_frame (self_of w) entryIds mode) as (Hj & Ha & Ht & He).
  unfold inherited, zoom; simpl.
  rewrite Ha, Ht, He; simpl. by rewrite with_sentences_same.
Qed.

(** ** [fetchResourceSentences] *)

Section fetchResourceSentences_cases.

Variable w : Root.

Let o := SentencesModule.fetchResourceSentences w.

Lemma fetch_without_journal :
  journals_active w = None →
  o = Outcome (Throw (ActiveJournalNotSet "fetchResourceSentences")) w [].
Proof.
  intros Hj. subst o.
  unfold SentencesModule.fetchResourceSentences, bind, ask, throw; simpl.
  by rewrite Hj.
Qed.

Lemma fetch_without_parent (j : Journal) :
  journals_active w = Some j → resources_selectedIds w = [] →
  o = Outcome (Ok tt) w [].
Proof.
  intros Hj Hsel. subst o.
  unfold SentencesModule.fetchResourceSentences,
    SentencesModule.shift_selected_resource, bind, ask, ret; simpl.
  by rewrite Hj, Hsel.
Qed.

(** With a parent selected, the first selected id has been shifted out
    of the resources module's selection whatever happens next. *)
Lemma fetch_with_parent (j : Journal) (first : Z) (rest : list Z) :
  journals_active w = Some j → resources_selectedIds w = first :: rest →
  resources_selectedIds (after o) = rest ∧
  db (after o) = db w ∧
  journals_active (after o) = journals_active w ∧
  only_state_writes (effects o) = true.
Proof.
  intros Hj Hsel. subst o.
  unfold SentencesModule.fetchResourceSentences,
    SentencesModule.shift_selected_resource, bind, ask, ret, mutate; simpl.
  rewrite Hj, Hsel; simpl.
  destruct (first =? 0)%Z; simpl; [by rewrite Hj|].
  unfold unawaited; simpl.
  match goal with
  | |- context [CommonEntryStash.setSelectedIds ?ids ?m ?s'] =>
      destruct (setSelectedIds_frame s' ids m) as (_ & _ & Ht & He)
  end.
  rewrite Ht, He; simpl. by rewrite with_sentences_same.
Qed.

End fetchResourceSentences_cases.

(** In every case the database is only read and the trace holds state
    writes only. *)
Lemma fetch_frame (w : Root) :
  let o := SentencesModule.fetchResourceSentences w in
  db (after o) = db w ∧ only_state_writes (effects o) = true.
Proof.
  intros o. subst o.
  destruct (journals_active w) as [j|] eqn:Hj.
  - destruct (resources_selectedIds w) as [|first rest] eqn:Hsel.
    + by rewrite (fetch_without_parent w j Hj Hsel).
    + destruct (fetch_with_parent w j first rest Hj Hsel) as (_ & Hd & _ & He). done.
  - by rewrite (fetch_without_journal w Hj).
Qed.

(** C9. When no parent Resource is selected, [fetchResourceSentences]
    changes no state at all: the loaded mapping is not replaced, the
    selection list is unchanged, and nothing is written (if no journal
    is active either, it raises without changing anything). *)
Theorem fetch_with_no_parent_selected_changes_nothing (w : Root) :
  resources_selectedIds w = [] →
  let o := SentencesModule.fetchResourceSentences w in
  sentences_all (after o) = sentences_all w ∧
  sentences_selectedIds (after o) = sentences_selectedIds w ∧
  after o = w ∧
  effects o = [] ∧
  (is_Some (journals_active w) → returned o = Ok tt).
Proof.
  intros Hsel o. subst o.
  destruct (journals_active w) as [j|] eqn:Hj.
  - rewrite (fetch_without_parent w j Hj Hsel). simpl. split_and!; done.
  - rewrite (fetch_without_journal w Hj). simpl. split_and!; try done.
Qed.

Lemma fetch_with_no_parent_selected_changes_nothing_witness :
  sentences_all (after (SentencesModule.fetchResourceSentences Examples.root_no_parent))
  = sentences_all Examples.root_no_parent.
Proof.
  exact (proj1 (fetch_with_no_parent_selected_changes_nothing
                  Examples.root_no_parent eq_refl)).
Defined.

(** C8 (what the code does). [fetchResourceSentences] reads the first
    selected Resource with [shift()], which removes it from the
    resources module's selection list: whenever a journal is active and
    a parent is selected, the selection list after the call has lost its
    first id, so it is not the list it was before the call. *)
Theorem fetch_shifts_the_parent_selection
    (w : Root) (j : Journal) (first : Z) (rest : list Z) :
  journals_active w = Some j →
  resources_selectedIds w = first :: rest →
  let o := SentencesModule.fetchResourceSentences w in
  resources_selectedIds (after o) = rest ∧
  resources_selectedIds (after o) ≠ resources_selectedIds w.
Proof.
  intros Hj Hsel o. subst o.
  destruct (fetch_with_parent w j first rest Hj Hsel) as (Hr & _).
  split; [done|]. rewrite Hr, Hsel. intros Heq.
  apply (f_equal length) in Heq. simpl in Heq. lia.
Qed.

Lemma fetch_shifts_the_parent_selection_witness :
  resources_selectedIds (after (SentencesModule.fetchResourceSentences Examples.root)) = [].
Proof.
  exact (proj1 (fetch_shifts_the_parent_selection
                  Examples.root Examples.journal1 5 [] eq_refl eq_refl)).
Defined.

(** ** [SentencesModule.delete] *)

(** The guard of [delete] tests a promise object, which is truthy: it
    never raises, whatever [isValidInDb] settles to. *)
Lemma delete_guard_never_raises (ids : list Z) (w : Root) :
  forEach SentencesModule.delete_guard ids w = Outcome (Ok tt) w [].
Proof.
  induction ids as [|id ids IH]; simpl; [done|].
  unfold bind at 1. unfold SentencesModule.delete_guard at 1.
  unfold bind, ask, ret; simpl. by rewrite IH.
Qed.

(** Whatever ids [delete] is given, valid in the active journal or not,
    the rows and links are deleted; an error can only come later, from
    [setSelectedIds] or from [fetchResourceSentences]. *)
Lemma delete_transaction (w : Root) (ids : list Z) :
  Dexie.transaction db with_db
    (let* _ := on_table (Dexie.bulkDelete ids) in SentencesModule.delete_links ids) w
  = Outcome (Ok tt) (with_db (without_sentences ids (db w)) w)
            [TableWrite; TableWrite; Committed].
Proof. by destruct w as [j r a sel [[rs k] ls]]. Qed.

Lemma delete_always_deletes (w : Root) (sentenceIds : one_or_many Z) :
  let o := SentencesModule.delete sentenceIds w in
  db (after o) = without_sentences (Util.wrapInArray sentenceIds) (db w) ∧
  ∃ t, effects o = [TableWrite; TableWrite; Committed] ++ t ∧
       only_state_writes t = true.
Proof.
  intros o. subst o. unfold SentencesModule.delete.
  set (ids := Util.wrapInArray sentenceIds).
  rewrite (bind_Ok _ _ _ _ _ _ (delete_guard_never_raises ids w)).
  rewrite (bind_Ok _ _ _ _ _ _ (delete_transaction w ids)).
  cbn [returned after effects app].
  set (w1 := with_db (without_sentences ids (db w)) w).
  destruct (inherited_setSelectedIds_frame w1 (Many ids) Remove)
    as (_ & _ & _ & Hd & He).
  destruct (fetch_frame (after (inherited (CommonEntryStash.setSelectedIds (Many ids) Remove) w1)))
    as (Hd' & He').
  unfold bind.
  destruct (returned (inherited (CommonEntryStash.setSelectedIds (Many ids) Remove) w1))
    as [r|e]; cbn [returned after effects].
  - split; [by rewrite Hd', Hd|].
    eexists. split; [reflexivity|].
    unfold only_state_writes in *. rewrite forallb_app. by rewrite He, He'.
  - split; [by rewrite Hd|].
    eexists. split; [reflexivity|]. done.
Qed.

(** C2 (what the code does). The guard of [delete] never raises, so
    for every input, valid in the active journal or not, the rows and
    the links that refer to them are deleted.  For instance, journal 1
    is active and sentence #2 belongs to journal 2, so it is not valid
    in the active journal; yet [delete([1, 2])] deletes both rows and
    both links and commits, and the error that is raised comes
    afterwards, from [setSelectedIds], when the persisted tables are
    already modified. *)
Theorem delete_does_not_validate :
  (∀ (w : Root) (sentenceIds : one_or_many Z),
     forEach SentencesModule.delete_guard (Util.wrapInArray sentenceIds) w
       = Outcome (Ok tt) w [] ∧
     db (after (SentencesModule.delete sentenceIds w))
       = without_sentences (Util.wrapInArray sentenceIds) (db w)) ∧
  let w := Examples.root in
  let o := SentencesModule.delete (Many [1; 2]%Z) w in
  CommonEntryStash.isValidInDb 2 (self_of w) = Fulfilled false ∧
  rows (sentences (db w)) !! 2%Z = Some (Sentence "b" 2) ∧
  rows (sentences (db (after o))) = ∅ ∧
  sentencesInResources (db (after o)) = [] ∧
  effects o = [TableWrite; TableWrite; Committed] ∧
  returned o = Throw (EntryNotValid 2).
Proof.
  split.
  - intros w sentenceIds. split.
    + apply delete_guard_never_raises.
    + apply delete_always_deletes.
  - vm_compute. split_and!; reflexivity.
Qed.

(** ** [SentencesModule.new] *)

(** *** [bulkAdd] *)

Lemma bulkAdd_cons (item : gmap string value) (items : list (gmap string value)) (t : Table) :
  Dexie.bulkAdd (item :: items) t =
    match rows t !! keyGen t with
    | Some _ => Outcome (Throw (ConstraintError (keyGen t))) t []
    | None =>
        let o := Dexie.bulkAdd items
                   (mkTable (<[keyGen t := item]> (rows t)) (keyGen t + 1)) in
        match returned o with
        | Ok keys => Outcome (Ok (keyGen t :: keys)) (after o) (TableWrite :: effects o)
        | Throw e => Outcome (Throw e) (after o) (TableWrite :: effects o)
        end
    end.
Proof.
  simpl. unfold bind at 1. unfold Dexie.add.
  destruct (rows t !! keyGen t); [done|].
  cbn [returned after effects]. unfold bind, ret.
  destruct (returned (Dexie.bulkAdd items _)); simpl; by rewrite ?app_nil_r.
Qed.

(** Rows already in the table are kept: a generated key never replaces
    an existing row. *)
Lemma bulkAdd_keeps (items : list (gmap string value)) (t : Table) (k : Z)
    (f : gmap string value) :
  rows t !! k = Some f →
  rows (after (Dexie.bulkAdd items t)) !! k = Some f.
Proof.
  revert t. induction items as [|item items IH]; intros t Hk; [done|].
  rewrite bulkAdd_cons.
  destruct (rows t !! keyGen t) eqn:Hfree; [done|].
  assert (rows (after (Dexie.bulkAdd items
            (mkTable (<[keyGen t := item]> (rows t)) (keyGen t + 1)))) !! k = Some f) as Hafter.
  { apply IH. simpl. rewrite lookup_insert_ne; [done|].
    intros Heq. rewrite Heq in Hfree. congruence. }
  cbv zeta. by destruct (returned _).
Qed.

(** Every row of the table afterwards was there before or is one of the
    added items. *)
Lemma bulkAdd_origin (items : list (gmap string value)) (t : Table) (k : Z)
    (f : gmap string value) :
  rows (after (Dexie.bulkAdd items t)) !! k = Some f →
  rows t !! k = Some f ∨ f ∈ items.
Proof.
  revert t. induction items as [|item items IH]; intros t; [by left|].
  rewrite bulkAdd_cons.
  destruct (rows t !! keyGen t) eqn:Hfree; [by left|].
  cbv zeta. intros Hk.
  assert (rows (after (Dexie.bulkAdd items
            (mkTable (<[keyGen t := item]> (rows t)) (keyGen t + 1)))) !! k = Some f) as Hafter
    by by destruct (returned _).
  apply IH in Hafter as [Hin|Hin]; simpl in *.
  - destruct (decide (keyGen t = k)) as [<-|Hne].
    + rewrite lookup_insert_eq in Hin. injection Hin as <-. right. apply list_elem_of_here.
    + rewrite lookup_insert_ne in Hin by done. by left.
  - right. by apply list_elem_of_further.
Qed.

(** On success there is one key per item, and the row under each key is
    the item. *)
Lemma bulkAdd_keys (items : list (gmap string value)) (t : Table) (keys : list Z) :
  returned (Dexie.bulkAdd items t) = Ok keys →
  Forall2 (λ key item, rows (after (Dexie.bulkAdd items t)) !! key = Some item) keys items.
Proof.
  revert t keys. induction items as [|item items IH]; intros t keys.
  - simpl. intros [= <-]. constructor.
  - rewrite bulkAdd_cons.
    destruct (rows t !! keyGen t) eqn:Hfree; [done|].
    cbv zeta.
    destruct (returned (Dexie.bulkAdd items _)) as [keys'|e] eqn:Hret; [|done].
    cbn [returned after]. intros [= <-]. constructor.
    + apply bulkAdd_keeps. simpl. by rewrite lookup_insert_eq.
    + by apply IH.
Qed.

Lemma key_generator_free (t : Table) (k : Z) :
  key_generator_ahead t → (keyGen t ≤ k)%Z → rows t !! k = None.
Proof.
  intros Hgen Hle. destruct (rows t !! k) as [f|] eqn:Hk; [|done].
  apply Hgen in Hk. lia.
Qed.

Lemma bulkAdd_succeeds (items : list (gmap string value)) (t : Table) :
  key_generator_ahead t → ∃ keys, returned (Dexie.bulkAdd items t) = Ok keys.
Proof.
  revert t. induction items as [|item items IH]; intros t Hgen.
  - by exists [].
  - rewrite bulkAdd_cons. rewrite (key_generator_free t (keyGen t)) by (done || lia).
    cbv zeta.
    destruct (IH (mkTable (<[keyGen t := item]> (rows t)) (keyGen t + 1))) as [keys Hk].
    + unfold key_generator_ahead; simpl. apply map_Forall_insert_2; [lia|].
      intros k f Hkf. apply Hgen in Hkf. lia.
    + rewrite Hk. by eexists.
Qed.

Lemma bulkAdd_effects (items : list (gmap string value)) (t : Table) :
  writes_no_state (effects (Dexie.bulkAdd items t)) = true.
Proof.
  revert t. induction items as [|item items IH]; intros t; [done|].
  rewrite bulkAdd_cons.
  destruct (rows t !! keyGen t); [done|]. cbv zeta.
  specialize (IH (mkTable (<[keyGen t := item]> (rows t)) (keyGen t + 1))).
  by destruct (returned _).
Qed.

(** *** [new], case by case *)

Lemma with_db_same (w : Root) : with_db (db w) w = w.
Proof. by destruct w. Qed.

Section new_cases.

Variables (w : Root) (texts : one_or_many string).

Let o := SentencesModule.new texts w.

Lemma new_without_journal :
  journals_active w = None →
  o = Outcome (Throw (ActiveJournalNotSet "new")) w [].
Proof.
  intros Hj. subst o. unfold SentencesModule.new, bind, ask, throw; simpl.
  by rewrite Hj.
Qed.

Lemma new_with_journal_0 (j : Journal) :
  journals_active w = Some j → journal_id j = 0%Z →
  o = Outcome (Throw (ActiveJournalNotSet "new")) w [].
Proof.
  intros Hj H0. subst o. unfold SentencesModule.new, bind, ask, throw; simpl.
  by rewrite Hj; simpl; rewrite H0.
Qed.

Lemma new_with_journal (j : Journal) :
  journals_active w = Some j → journal_id j ≠ 0%Z →
  let added := Dexie.bulkAdd
                 ((λ text, Sentence text (journal_id j)) <$> Util.wrapInArray texts)
                 (sentences (db w)) in
  o = match returned added with
      | Ok ids =>
          Outcome (Ok ids) (with_db (with_sentences (after added) (db w)) w)
                  (effects added ++ [Committed])
      | Throw e => Outcome (Throw e) w (effects added ++ [Aborted])
      end.
Proof.
  intros Hj H0. cbv zeta. subst o. unfold SentencesModule.new.
  unfold bind at 1, ask at 1. cbn [returned after effects].
  rewrite Hj. cbn [fmap option_fmap option_map].
  apply Z.eqb_neq in H0. rewrite H0. cbn [app].
  unfold Dexie.transaction, on_table, zoom, bind, ask, ret, throw.
  cbn [returned after effects].
  set (added := Dexie.bulkAdd _ (sentences (db w))).
  assert (∀ ids, returned added = Ok ids →
                 length ids = length (Util.wrapInArray texts)) as Hlen.
  { intros ids Hret. apply bulkAdd_keys, Forall2_length in Hret.
    by rewrite length_fmap in Hret. }
  clearbody added.
  destruct added as [[ids|e] t ev]; cbn [returned after effects].
  - specialize (Hlen ids eq_refl).
    rewrite bool_decide_eq_false_2.
    + cbn [returned after effects]. by rewrite !app_nil_r.
    + intros Hne. apply Hne. unfold Dexie.bulkGet. by rewrite length_fmap.
  - by destruct w.
Qed.

End new_cases.

Lemma Sentence_journalId (text : string) (journalId : Z) :
  Sentence text journalId !! "journalId" = Some (VNum journalId).
Proof.
  unfold Sentence. rewrite lookup_insert_ne by done. apply lookup_insert_eq.
Qed.

(** C10. Every Sentence created by [new(texts)] is constructed with
    [journalId] equal to the id of the journal active at the time of the
    call: each row the call adds to the table is [Sentence(text, id of
    the active journal)] for one of the texts, the returned ids name
    these rows in order, and with the key generator ahead of the keys
    in use the call does succeed.  If no journal is active the call
    raises an error and creates nothing. *)
Theorem new_sentences_belong_to_the_active_journal
    (w : Root) (texts : one_or_many string) :
  let o := SentencesModule.new texts w in
  let before := rows (sentences (db w)) in
  let now := rows (sentences (db (after o))) in
  (journals_active w = None →
     returned o = Throw (ActiveJournalNotSet "new") ∧ after o = w ∧ effects o = []) ∧
  (∀ id f, now !! id = Some f → before !! id ≠ Some f →
     ∃ j text, journals_active w = Some j ∧
               text ∈ Util.wrapInArray texts ∧
               f = Sentence text (journal_id j) ∧
               f !! "journalId" = Some (VNum (journal_id j))) ∧
  (∀ j ids, journals_active w = Some j → returned o = Ok ids →
     Forall2 (λ id text, now !! id = Some (Sentence text (journal_id j)))
             ids (Util.wrapInArray texts)) ∧
  (∀ j, journals_active w = Some j → journal_id j ≠ 0%Z →
        key_generator_ahead (sentences (db w)) →
        ∃ ids, returned o = Ok ids).
Proof.
  intros o before now. subst o before now.
  destruct (journals_active w) as [j|] eqn:Hj.
  2:{ rewrite (new_without_journal w texts Hj). cbn [returned after effects].
      split_and!; try done; try (intros; congruence). }
  destruct (decide (journal_id j = 0%Z)) as [H0|H0].
  { rewrite (new_with_journal_0 w texts j Hj H0). cbn [returned after effects].
    split_and!; try done; try (intros; congruence).
    all: intros j' [= <-] Hne; done. }
  rewrite (new_with_journal w texts j Hj H0). cbv zeta.
  set (items := (λ text, Sentence text (journal_id j)) <$> Util.wrapInArray texts).
  set (added := Dexie.bulkAdd items (sentences (db w))).
  split_and!.
  - done.
  - intros id f Hnow Hbefore.
    assert (rows (after added) !! id = Some f) as Hadded.
    { destruct (returned added); cbn [after] in Hnow; [done|congruence]. }
    apply bulkAdd_origin in Hadded as [Hold|Hnew]; [done|].
    apply list_elem_of_fmap in Hnew as (text & -> & Htext).
    exists j, text. split_and!; first [done | apply Sentence_journalId].
  - intros j' ids [= <-] Hret.
    destruct (returned added) as [ids'|e] eqn:Hadded; cbn [returned after] in *; [|done].
    injection Hret as ->.
    apply bulkAdd_keys in Hadded. by apply Forall2_fmap_r in Hadded.
  - intros j' [= <-] _ Hgen.
    destruct (bulkAdd_succeeds items _ Hgen) as [ids Hids].
    fold added in Hids. rewrite Hids. by exists ids.
Qed.

Lemma new_sentences_belong_to_the_active_journal_witness :
  ∃ ids, returned (SentencesModule.new (Many ["x"; "y"]) Examples.root) = Ok ids.
Proof.
  refine (proj2 (proj2 (proj2 (new_sentences_belong_to_the_active_journal
            Examples.root (Many ["x"; "y"])))) Examples.journal1 eq_refl _ _).
  - simpl. lia.
  - apply (bool_decide_unpack _). vm_compute. exact I.
Defined.

(** ** Order of state writes and persistence *)

(** Writing the state only after the commit is the stronger order: it
    implies that no persistence event follows a state write, and it
    refuses a state write that no commit precedes or that follows a
    rollback. *)
Lemma after_commit_orders (t : list event) (committed : bool) :
  after_commit committed t = true → state_after_persistence t = true.
Proof.
  revert committed. induction t as [|e t IH]; intros committed; [done|].
  destruct e; simpl; try apply IH.
  by intros [_ ?]%andb_true_iff.
Qed.

Lemma state_only_after_commit_refuses :
  state_only_after_commit [StateWrite] = false ∧
  state_only_after_commit [TableWrite; Aborted; StateWrite] = false ∧
  state_only_after_commit [StateWrite; TableWrite; Committed] = false ∧
  state_only_after_commit [TableWrite; TableWrite; Committed; StateWrite; StateWrite] = true.
Proof. done. Qed.

Lemma writes_no_state_app (t1 t2 : list event) :
  writes_no_state t1 = true → writes_no_state t2 = true →
  writes_no_state (t1 ++ t2) = true.
Proof.
  intros H1 H2. unfold writes_no_state in *. rewrite forallb_app. by rewrite H1, H2.
Qed.

Lemma no_state_write_after_commit (t : list event) (committed : bool) :
  writes_no_state t = true → after_commit committed t = true.
Proof.
  revert committed. induction t as [|e t IH]; intros committed; [done|].
  simpl. intros [He Ht]%andb_true_iff. destruct e; try done; by apply IH.
Qed.

Lemma state_writes_after_commit (t : list event) :
  only_state_writes t = true → after_commit true t = true.
Proof.
  destruct t as [|e t]; [done|]. simpl.
  intros [He Ht]%andb_true_iff. by destruct e.
Qed.

Lemma new_effects (w : Root) (texts : one_or_many string) :
  writes_no_state (effects (SentencesModule.new texts w)) = true.
Proof.
  destruct (journals_active w) as [j|] eqn:Hj.
  - destruct (decide (journal_id j = 0%Z)) as [H0|H0].
    + by rewrite (new_with_journal_0 w texts j Hj H0).
    + rewrite (new_with_journal w texts j Hj H0). cbv zeta.
      destruct (returned _); cbn [effects];
        by apply writes_no_state_app; [apply bulkAdd_effects|].
  - by rewrite (new_without_journal w texts Hj).
Qed.

Section relink_effects.

Variable putSentenceInResource : Z → Z → Z → WordPouch → result WordPouch.

Lemma relink_step_effects (sentence resource journal : Z) (w : Root) :
  writes_no_state
    (effects (SentencesModule.run_putSentenceInResource putSentenceInResource
                sentence resource journal w)) = true.
Proof.
  unfold SentencesModule.run_putSentenceInResource.
  by destruct (putSentenceInResource sentence resource journal (db w)).
Qed.

Lemma relink_loop_effects (ids : list Z) (resource journal : Z) (w : Root) :
  writes_no_state
    (effects (forEach (λ sentence,
                SentencesModule.run_putSentenceInResource putSentenceInResource
                  sentence resource journal) ids w)) = true.
Proof.
  revert w. induction ids as [|id ids IH]; intros w; [done|].
  simpl. unfold bind at 1.
  pose proof (relink_step_effects id resource journal w) as Hstep.
  destruct (returned _); cbn [effects]; [|done].
  by apply writes_no_state_app; [|apply IH].
Qed.

Lemma putSentencesInResource_effects (ids : list Z) (resource : Z) (w : Root) :
  writes_no_state
    (effects (SentencesModule.putSentencesInResource putSentenceInResource
                ids resource w)) = true.
Proof.
  unfold SentencesModule.putSentencesInResource.
  unfold bind at 1, ask at 1. cbn [returned after effects app].
  destruct (journal_id <$> journals_active w) as [journal|]; [|done].
  destruct (journal =? 0)%Z; [done|].
  unfold Dexie.transaction.
  pose proof (relink_loop_effects ids resource journal w) as Hloop.
  destruct (returned _); cbn [effects ask after app]; by apply writes_no_state_app.
Qed.

End relink_effects.

(** C3 (as stated, refuted). Sentence #1 is loaded and persisted with
    text "a".  [updateStateAndDb(1, 'text', 'b')] assigns the loaded
    entry's field inside the [modify] callback, before the row is put
    and the transaction commits.  In the legacy [StashModule], with the
    row missing from the table, the loaded entry is assigned although
    no table write happens at all and the method reports 0. *)
Lemma updateStateAndDb_writes_state_before_commit :
  let o := EntryStash.updateStateAndDb 1 "text" (Literal (VStr "b")) Examples.loaded in
  let o' := StashModule.updateStateAndDb 1 "text" (VStr "b") Examples.row_missing in
  effects o = [StateWrite; TableWrite; Committed] ∧
  state_after_persistence (effects o) = false ∧
  returned o' = Ok Zero ∧
  effects o' = [StateWrite; Committed] ∧
  all (after o') !! 1%Z ≫= (λ e, fields e !! "text") = Some (VStr "b") ∧
  table (after o') = table Examples.row_missing.
Proof. vm_compute. split_and!; reflexivity. Qed.

(** C3 (amended). The multi-step workflows [new] and
    [putSentencesInResource] write no in-memory state at all, and
    [delete] writes the in-memory state only after its transaction has
    committed: its effects are the two table deletes, the commit, and
    then state writes only.  [updateStateAndDb] is different.  Either
    it leaves the loaded mapping alone and writes no state, or it
    assigns the loaded entry's field first, before anything is
    committed: in [EntryStash] inside the [modify] callback, and the
    put of the row and the commit follow; in the legacy [StashModule]
    before [table.update], which then puts the changed row and
    commits, or, when no row has the id or the row holds the value
    already, leaves the table as it is. *)
Theorem state_written_after_commit_in_workflows
    (putSentenceInResource : Z → Z → Z → WordPouch → result WordPouch) :
  (∀ w texts,
     let t := effects (SentencesModule.new texts w) in
     writes_no_state t = true ∧ state_only_after_commit t = true) ∧
  (∀ w ids,
     let t := effects (SentencesModule.delete ids w) in
     (∃ t', t = [TableWrite; TableWrite; Committed] ++ t' ∧
            only_state_writes t' = true) ∧
     state_only_after_commit t = true) ∧
  (∀ w ids resource,
     let t := effects (SentencesModule.putSentencesInResource putSentenceInResource
                         ids resource w) in
     writes_no_state t = true ∧ state_only_after_commit t = true) ∧
  (∀ s id key payload,
     let o := EntryStash.updateStateAndDb id key payload s in
     (all (after o) = all s ∧ writes_no_state (effects o) = true) ∨
     (effects o = [StateWrite; TableWrite; Committed] ∧
      state_only_after_commit (effects o) = false)) ∧
  (∀ s id key v,
     let o := StashModule.updateStateAndDb id key v s in
     (all (after o) = all s ∧ effects o = []) ∨
     (effects o = [StateWrite; TableWrite; Committed] ∧
      state_only_after_commit (effects o) = false ∧
      ∃ f, rows (table s) !! id = Some f ∧ f !! key ≠ Some v ∧
           rows (table (after o)) !! id = Some (<[key := v]> f)) ∨
     (effects o = [StateWrite; Committed] ∧
      state_only_after_commit (effects o) = false ∧
      table (after o) = table s ∧
      (rows (table s) !! id = None ∨
       ∃ f, rows (table s) !! id = Some f ∧ f !! key = Some v))).
Proof.
  split_and!.
  - intros w texts t. subst t. pose proof (new_effects w texts) as Hno.
    split; [done|]. by apply no_state_write_after_commit.
  - intros w ids t. subst t.
    destruct (delete_always_deletes w ids) as (_ & t' & Heq & Ht').
    split; [by exists t'|].
    rewrite Heq. by apply state_writes_after_commit.
  - intros w ids resource t. subst t.
    pose proof (putSentencesInResource_effects putSentenceInResource ids resource w) as Hno.
    split; [done|]. by apply no_state_write_after_commit.
  - intros s id key payload o. subst o.
    destruct (rows (table s) !! id) as [f|] eqn:Hrow.
    + destruct (all s !! id) as [stateEntry|] eqn:Hst.
      * destruct (decide (f !! key = Some (payload_value payload stateEntry))) as [Hv|Hv].
        -- left.
           by rewrite (updateStateAndDb_row_same_value s id key payload f stateEntry Hrow Hst Hv).
        -- right.
           by rewrite (updateStateAndDb_row_new_value s id key payload f stateEntry Hrow Hst Hv).
      * left. by rewrite (updateStateAndDb_row_not_loaded s id key payload f Hrow Hst).
    + left. by rewrite (updateStateAndDb_no_row s id key payload Hrow).
  - intros s id key v o. subst o.
    destruct (all s !! id) as [entry|] eqn:Hst.
    + destruct (decide (fields entry !! key = Some v)) as [Hv|Hv].
      * left. by rewrite (legacy_update_same_value s id key v entry Hst Hv).
      * right. destruct (rows (table s) !! id) as [f|] eqn:Hrow.
        -- rewrite (legacy_update_row_present_outcome s id key v entry f Hst Hv Hrow).
           cbn [effects after table rows].
           destruct (strict_eq (f !! key) v) eqn:Heq.
           ++ right. apply strict_eq_true in Heq. split_and!; try done.
              right. by exists f.
           ++ left. apply strict_eq_false in Heq. split_and!; try done.
              exists f. cbn [rows]. by rewrite lookup_insert_eq.
        -- right. rewrite (legacy_update_row_missing s id key v entry Hst Hv Hrow).
           split_and!; try done. by left.
    + left. by rewrite (legacy_update_not_loaded s id key v Hst).
Qed.

(** * Further properties of the stash layer *)

(** ** [EntryStash]: the loaded mapping *)

(** X1. Adding an entity whose id is not loaded succeeds; afterwards
    [get] returns that entity and [isValid] accepts its id, every other
    id reads as before, and neither the table, the selection nor the
    active journal is touched. *)
Theorem addToAll_then_get (s : Self) (value : DBEntry) :
  all s !! entry_id value = None →
  let o := EntryStash.addToAll value s in
  returned o = Ok tt ∧
  EntryStash.get (entry_id value) (after o) = Some value ∧
  EntryStash.isValid (entry_id value) (after o) = true ∧
  (∀ id, id ≠ entry_id value →
         EntryStash.get id (after o) = EntryStash.get id s) ∧
  table (after o) = table s ∧
  selectedIds (after o) = selectedIds s ∧
  activeJournal (after o) = activeJournal s.
Proof.
  intros Hnew o. subst o. rewrite (addToAll_fresh s value Hnew).
  unfold EntryStash.get, EntryStash.isValid; cbn [returned after all with_all].
  split_and!; try done.
  - by rewrite lookup_insert_eq.
  - rewrite lookup_insert_eq. by apply bool_decide_eq_true_2.
  - intros id Hid. by rewrite lookup_insert_ne.
Qed.

Lemma addToAll_then_get_witness :
  EntryStash.get 1 (after (EntryStash.addToAll Examples.sentence1 Examples.not_loaded))
  = Some Examples.sentence1.
Proof.
  exact (proj1 (proj2 (addToAll_then_get Examples.not_loaded Examples.sentence1 eq_refl))).
Defined.

(** ** [EntryStash.updateStateAndDb] *)

(** X2. When the entity is loaded, its row exists and the row's field
    differs from the value, [updateStateAndDb] returns 1 and sets the
    field to the value in both copies: the persisted row and the loaded
    entry.  Every other field of both, every other row and every other
    loaded entry stay as they were, and so do the selection and the key
    generator. *)
Theorem updateStateAndDb_writes_both_copies
    (s : Self) (id : Z) (key : string) (payload : Payload)
    (f : gmap string value) (stateEntry : DBEntry) :
  rows (table s) !! id = Some f →
  all s !! id = Some stateEntry →
  f !! key ≠ Some (payload_value payload stateEntry) →
  let v := payload_value payload stateEntry in
  let o := EntryStash.updateStateAndDb id key payload s in
  returned o = Ok 1%nat ∧
  rows (table (after o)) !! id = Some (<[key := v]> f) ∧
  all (after o) !! id = Some (mkEntry (entry_id stateEntry) (<[key := v]> (fields stateEntry))) ∧
  (∀ key', key' ≠ key →
     (<[key := v]> f) !! key' = f !! key' ∧
     (<[key := v]> (fields stateEntry)) !! key' = fields stateEntry !! key') ∧
  (∀ id', id' ≠ id →
     rows (table (after o)) !! id' = rows (table s) !! id' ∧
     all (after o) !! id' = all s !! id') ∧
  selectedIds (after o) = selectedIds s ∧
  keyGen (table (after o)) = keyGen (table s).
Proof.
  intros Hrow Hst Hval v o. subst o v.
  rewrite (updateStateAndDb_row_new_value s id key payload f stateEntry Hrow Hst Hval).
  cbn [returned after all table rows keyGen selectedIds].
  split_and!; try done.
  - by rewrite lookup_insert_eq.
  - by rewrite lookup_insert_eq.
  - intros key' Hne. by rewrite !lookup_insert_ne.
  - intros id' Hne. by rewrite !lookup_insert_ne.
Qed.

Lemma updateStateAndDb_writes_both_copies_witness :
  rows (table (after (EntryStash.updateStateAndDb 1 "text" (Literal (VStr "b"))
                        Examples.loaded))) !! 1%Z
  = Some (<["text" := VStr "b"]> (Sentence "a" 1)).
Proof.
  refine (proj1 (proj2 (updateStateAndDb_writes_both_copies
            Examples.loaded 1 "text" (Literal (VStr "b"))
            (Sentence "a" 1) Examples.sentence1 eq_refl eq_refl _))).
  vm_compute. discriminate.
Defined.

(** X3. With a literal value that is an integer, a string or a
    boolean (the values of the model, which [===] compares by plain
    equality), [updateStateAndDb] is idempotent: a second call with the
    same arguments leaves the table and the state exactly as the first
    call left them and writes no state.  ([NaN], arrays and objects are
    not covered: [===] fails on them and the second call would assign
    again.) *)
Theorem updateStateAndDb_literal_twice
    (s : Self) (id : Z) (key : string) (v : value) :
  let o1 := EntryStash.updateStateAndDb id key (Literal v) s in
  let o2 := EntryStash.updateStateAndDb id key (Literal v) (after o1) in
  after o2 = after o1 ∧
  writes_no_state (effects o2) = true.
Proof.
  intros o1 o2. subst o1 o2.
  destruct (rows (table s) !! id) as [f|] eqn:Hrow.
  - destruct (all s !! id) as [stateEntry|] eqn:Hst.
    + destruct (decide (f !! key = Some (payload_value (Literal v) stateEntry))) as [Hv|Hv].
      * rewrite (updateStateAndDb_row_same_value s id key _ f stateEntry Hrow Hst Hv).
        cbn [after returned].
        by rewrite (updateStateAndDb_row_same_value s id key _ f stateEntry Hrow Hst Hv).
      * rewrite (updateStateAndDb_row_new_value s id key _ f stateEntry Hrow Hst Hv).
        cbn [after returned payload_value].
        erewrite updateStateAndDb_row_same_value; [done|..]; cbn [table rows all].
        -- apply lookup_insert_eq.
        -- apply lookup_insert_eq.
        -- cbn [payload_value]. apply lookup_insert_eq.
    + rewrite (updateStateAndDb_row_not_loaded s id key _ f Hrow Hst).
      cbn [after returned].
      by rewrite (updateStateAndDb_row_not_loaded s id key _ f Hrow Hst).
  - rewrite (updateStateAndDb_no_row s id key _ Hrow). cbn [after returned].
    by rewrite (updateStateAndDb_no_row s id key _ Hrow).
Qed.

(** X4. [updateStateAndDb] never raises, never adds or removes a row or
    a loaded entry, and touches neither the key generator, the
    selection nor the active journal. *)
Theorem updateStateAndDb_keeps_the_shape
    (s : Self) (id : Z) (key : string) (payload : Payload) :
  let o := EntryStash.updateStateAndDb id key payload s in
  (∃ n, returned o = Ok n) ∧
  dom (rows (table (after o))) = dom (rows (table s)) ∧
  dom (all (after o)) = dom (all s) ∧
  keyGen (table (after o)) = keyGen (table s) ∧
  selectedIds (after o) = selectedIds s ∧
  activeJournal (after o) = activeJournal s.
Proof.
  intros o. subst o.
  destruct (rows (table s) !! id) as [f|] eqn:Hrow.
  - destruct (all s !! id) as [stateEntry|] eqn:Hst.
    + destruct (decide (f !! key = Some (payload_value payload stateEntry))) as [Hv|Hv].
      * rewrite (updateStateAndDb_row_same_value s id key _ f stateEntry Hrow Hst Hv).
        split_and!; try done. by eexists.
      * rewrite (updateStateAndDb_row_new_value s id key _ f stateEntry Hrow Hst Hv).
        cbn [returned after all table rows keyGen selectedIds activeJournal].
        split_and!; try done.
        -- by eexists.
        -- apply dom_insert_lookup_L. by rewrite Hrow.
        -- apply dom_insert_lookup_L. by rewrite Hst.
    + rewrite (updateStateAndDb_row_not_loaded s id key _ f Hrow Hst).
      split_and!; try done. by eexists.
  - rewrite (updateStateAndDb_no_row s id key _ Hrow).
    split_and!; try done. by eexists.
Qed.

(** ** [BaseStash.reset] *)

(** X5. [reset] empties the in-memory state and nothing else: no id is
    loaded or selected afterwards, the table and the active journal are
    as before (so validity in the database is unchanged), any entity
    can be added again, and a second [reset] changes nothing more. *)
Theorem reset_empties_the_state_only (s : Self) :
  let o := BaseStash.reset s in
  returned o = Ok tt ∧
  (∀ id, EntryStash.get id (after o) = None ∧ EntryStash.isValid id (after o) = false) ∧
  EntryStash.allIds (after o) = [] ∧
  selectedIds (after o) = [] ∧
  table (after o) = table s ∧
  activeJournal (after o) = activeJournal s ∧
  (∀ id, CommonEntryStash.isValidInDb id (after o) = CommonEntryStash.isValidInDb id s) ∧
  (∀ value, returned (EntryStash.addToAll value (after o)) = Ok tt) ∧
  after (BaseStash.reset (after o)) = after o.
Proof.
  intros o. subst o.
  unfold BaseStash.reset, bind, mutate; cbn [returned after effects].
  unfold EntryStash.get, EntryStash.isValid, EntryStash.allIds,
    CommonEntryStash.isValidInDb;
    cbn [all selectedIds table activeJournal with_all with_selectedIds].
  split_and!; try done.
  all: try (intros id; rewrite lookup_empty; split; [done|];
            apply bool_decide_eq_false_2; by intros H).
  all: try by rewrite map_to_list_empty.
  all: intros value; rewrite addToAll_fresh; [done|]; apply lookup_empty.
Qed.

(** ** [getFromDb] and [isValidInDb] *)

(** X6. [CommonEntryStash.getFromDb] needs an active journal but does
    not scope by it: without an active journal it rejects; with one, it
    fulfils with the row stored under the id, whichever journal is
    active and whichever journal the row belongs to.  It finds a row
    exactly when [EntryStash.isValidInDb] accepts the id, and the
    entry it returns carries that id. *)
Theorem getFromDb_is_not_scoped_by_journal (s : Self) (id : Z) :
  (activeJournal s = None →
     CommonEntryStash.getFromDb id s = Rejected (ActiveJournalNotSet "getFromDb")) ∧
  (∀ j j' : Journal,
     CommonEntryStash.getFromDb id (mkSelf (Some j) (all s) (selectedIds s) (table s))
     = CommonEntryStash.getFromDb id (mkSelf (Some j') (all s) (selectedIds s) (table s))) ∧
  (∀ j : Journal,
     activeJournal s = Some j →
     (EntryStash.isValidInDb id s = Fulfilled true ↔
      ∃ entry, CommonEntryStash.getFromDb id s = Fulfilled (Some entry)) ∧
     (∀ entry, CommonEntryStash.getFromDb id s = Fulfilled (Some entry) →
               entry_id entry = id ∧ rows (table s) !! id = Some (fields entry))).
Proof.
  unfold CommonEntryStash.getFromDb, EntryStash.getFromDb, EntryStash.isValidInDb,
    Dexie.get, Dexie.count_id.
  split_and!.
  - by intros ->.
  - done.
  - intros j ->. destruct (rows (table s) !! id) as [f|]; cbn.
    + split.
      * split; [intros _; by eexists|done].
      * by intros entry [= <-].
    + split.
      * split; [done|]. by intros [entry [=]].
      * by intros entry [=].
Qed.

Lemma getFromDb_is_not_scoped_by_journal_witness :
  entry_id (mkEntry 2 (Sentence "b" 2)) = 2%Z ∧
  rows (table Examples.loaded) !! 2%Z = Some (fields (mkEntry 2 (Sentence "b" 2))).
Proof.
  exact (proj2 (proj2 (proj2 (getFromDb_is_not_scoped_by_journal Examples.loaded 2))
                  Examples.journal1 eq_refl)
           (mkEntry 2 (Sentence "b" 2)) eq_refl).
Defined.

(** ** More on [setSelectedIds] *)

(** X7. Whatever its input, [setSelectedIds] touches nothing but the
    selection list, and its result tells what happened: 0 means
    nothing at all was changed or written; no result value means the
    selection was assigned once and differs from what it was; an error
    means nothing was changed. *)
Theorem setSelectedIds_reports_change
    (s : Self) (entryIds : one_or_many Z) (mode : UpdateMode) :
  let o := CommonEntryStash.setSelectedIds entryIds mode s in
  all (after o) = all s ∧
  table (after o) = table s ∧
  activeJournal (after o) = activeJournal s ∧
  (returned o = Ok Zero → after o = s ∧ effects o = []) ∧
  (returned o = Ok Void →
     effects o = [StateWrite] ∧ selectedIds (after o) ≠ selectedIds s) ∧
  (∀ e, returned o = Throw e → after o = s ∧ effects o = []).
Proof.
  intros o. subst o.
  destruct (validation_reads_only (Util.wrapInArray entryIds) s) as [r Hr].
  unfold CommonEntryStash.setSelectedIds, bind. rewrite Hr.
  cbn [returned after effects].
  destruct r as [[]|e]; cbn [returned after effects]; [|by split_and!].
  unfold ask, ret, mutate. cbn [returned after effects app].
  destruct (Util.areArraysEqual _ _) eqn:Heq; cbn [returned after effects app].
  - by split_and!.
  - split_and!; try done. intros _. split; [done|].
    cbn [selectedIds with_selectedIds]. intros Hsame.
    assert (Util.areArraysEqual (selectedIds s)
              (Util.updateArrayWithValues (selectedIds s)
                 (Util.wrapInArray entryIds) mode) = true) as Habs
      by by apply areArraysEqual_spec.
    congruence.
Qed.

Lemma setSelectedIds_reports_change_witness :
  effects (CommonEntryStash.setSelectedIds (One 1%Z) Remove Examples.loaded) = [StateWrite].
Proof.
  exact (proj1 (proj1 (proj2 (proj2 (proj2 (proj2
           (setSelectedIds_reports_change Examples.loaded (One 1%Z) Remove)))))
           eq_refl)).
Defined.

(** X8. An empty input is never validated, so [setSelectedIds([])]
    never raises, not even without an active journal.  In the modes Add
    and Remove it changes nothing and returns 0; in the mode Replace it
    clears the selection. *)
Theorem setSelectedIds_of_nothing (s : Self) (mode : UpdateMode) :
  let o := CommonEntryStash.setSelectedIds (Many []) mode s in
  (∃ r, returned o = Ok r) ∧
  selectedIds (after o) = match mode with
                          | Replace => []
                          | Add | Remove => selectedIds s
                          end ∧
  (mode ≠ Replace → returned o = Ok Zero ∧ after o = s).
Proof.
  intros o. subst o.
  unfold CommonEntryStash.setSelectedIds, bind, ask, ret, mutate.
  cbn [Util.wrapInArray forEach ret returned after effects app].
  assert (filter (λ x : Z, x ∉ @nil Z) (selectedIds s) = selectedIds s) as Hfilter.
  { induction (selectedIds s) as [|x l IH]; [done|].
    rewrite filter_cons_True by apply not_elem_of_nil. by rewrite IH. }
  destruct mode; cbn [Util.updateArrayWithValues foldl].
  - destruct (selectedIds s) as [|x l] eqn:Hsel; cbn; split_and!; try done; by eexists.
  - rewrite (proj2 (areArraysEqual_spec _ _) eq_refl). cbn.
    split_and!; try done. by eexists.
  - rewrite Hfilter, (proj2 (areArraysEqual_spec _ _) eq_refl). cbn.
    split_and!; try done. by eexists.
Qed.

Lemma setSelectedIds_of_nothing_witness :
  returned (CommonEntryStash.setSelectedIds (Many []) Add
              (mkSelf None ∅ [7%Z] (mkTable ∅ 1))) = Ok Zero.
Proof.
  refine (proj1 (proj2 (proj2 (setSelectedIds_of_nothing
            (mkSelf None ∅ [7%Z] (mkTable ∅ 1)) Add)) _)).
  discriminate.
Defined.

(** Where the ids of an updated array come from. *)
Lemma append_all_origin (vs acc : list Z) (x : Z) :
  x ∈ foldl Util.append_new acc vs → x ∈ acc ∨ x ∈ vs.
Proof.
  revert acc. induction vs as [|v vs IH]; intros acc Hx; simpl in *; [by left|].
  apply IH in Hx as [Hx|Hx]; [|right; by apply list_elem_of_further].
  unfold Util.append_new in Hx. case_bool_decide; [by left|].
  apply elem_of_app in Hx as [Hx|Hx]; [by left|].
  apply list_elem_of_singleton in Hx as ->. right. apply list_elem_of_here.
Qed.

Lemma append_all_NoDup (vs acc : list Z) :
  NoDup acc → NoDup (foldl Util.append_new acc vs).
Proof.
  revert acc. induction vs as [|v vs IH]; intros acc Hacc; simpl; [done|].
  apply IH. unfold Util.append_new. case_bool_decide as Hin; [done|].
  apply NoDup_app. split_and!; [done| |apply NoDup_singleton].
  intros x Hx ->%list_elem_of_singleton. done.
Qed.

Lemma updateArrayWithValues_origin (array values : list Z) (mode : UpdateMode) (x : Z) :
  x ∈ Util.updateArrayWithValues array values mode → x ∈ array ∨ x ∈ values.
Proof.
  destruct mode; simpl; intros Hx.
  - apply append_all_origin in Hx as [Hx|Hx]; [by apply elem_of_nil in Hx|by right].
  - by apply append_all_origin.
  - apply list_elem_of_filter in Hx as [_ Hx]. by left.
Qed.

Lemma updateArrayWithValues_NoDup (array values : list Z) (mode : UpdateMode) :
  NoDup array → NoDup (Util.updateArrayWithValues array values mode).
Proof.
  intros Harr. destruct mode; simpl.
  - apply append_all_NoDup. constructor.
  - by apply append_all_NoDup.
  - by apply NoDup_filter.
Qed.

(** X9. [setSelectedIds] keeps the selection consistent: if the
    selection list holds distinct ids that are all valid, it still does
    after the call, whatever the input and the mode and whether the
    call succeeds or raises. *)
Theorem setSelectedIds_keeps_selection_consistent
    (s : Self) (entryIds : one_or_many Z) (mode : UpdateMode) :
  selection_consistent s →
  selection_consistent (after (CommonEntryStash.setSelectedIds entryIds mode s)).
Proof.
  intros [Hnodup Hvalid].
  destruct (decide (Forall (λ id, returned (CommonEntryStash.isValid id s) = Ok true)
                           (Util.wrapInArray entryIds))) as [Hall|Hsome].
  - rewrite Forall_forall in Hall.
    rewrite (setSelectedIds_valid s entryIds mode Hall). cbv zeta.
    destruct (Util.areArraysEqual _ _); cbn [after]; [by split|].
    split; cbn [selectedIds with_selectedIds].
    + by apply updateArrayWithValues_NoDup.
    + intros id Hid. rewrite isValid_ignores_selection.
      apply updateArrayWithValues_origin in Hid as [Hid|Hid]; auto.
  - apply not_Forall_Exists in Hsome; [|apply _].
    apply Exists_exists in Hsome as (bad & Hin & Hbad).
    destruct (validation_raises _ s bad Hin Hbad) as [e He].
    unfold CommonEntryStash.setSelectedIds, bind. rewrite He. cbn [returned after].
    by split.
Qed.

Lemma setSelectedIds_keeps_selection_consistent_witness :
  selection_consistent
    (after (CommonEntryStash.setSelectedIds (One 1%Z) Remove Examples.loaded)).
Proof.
  apply (setSelectedIds_keeps_selection_consistent Examples.loaded (One 1%Z) Remove).
  split.
  - apply NoDup_singleton.
  - intros id Hid. simpl in Hid. apply list_elem_of_singleton in Hid as ->. reflexivity.
Defined.

(** ** The legacy [StashModule] *)

(** X10. The legacy [addToAll] never overwrites: for an id that is
    not loaded it stores the entity and returns nothing; for a loaded id
    it returns 0 and the entity loaded before stays.  Either way the id
    is loaded afterwards, and every other id, the table and the
    selection are untouched. *)
Theorem legacy_addToAll_never_overwrites (s : Self) (value : DBEntry) :
  let o := StashModule.addToAll value s in
  returned o = match all s !! entry_id value with
               | Some _ => Ok Zero
               | None => Ok Void
               end ∧
  StashModule.get (entry_id value) (after o)
    = match all s !! entry_id value with
      | Some existing => Some existing
      | None => Some value
      end ∧
  (∀ id, id ≠ entry_id value →
         StashModule.get id (after o) = StashModule.get id s) ∧
  table (after o) = table s ∧
  selectedIds (after o) = selectedIds s.
Proof.
  intros o. subst o.
  unfold StashModule.addToAll, StashModule.setAll, StashModule.get,
    bind, ask, ret, mutate; cbn [returned after effects].
  destruct (all s !! entry_id value) as [existing|] eqn:Hl;
    cbn [returned after all table selectedIds with_all].
  - by rewrite Hl.
  - rewrite lookup_insert_eq. split_and!; try done.
    intros id Hid. by rewrite lookup_insert_ne.
Qed.

Lemma with_all_same (s : Self) : with_all (all s) s = s.
Proof. by destruct s. Qed.

(** X11. [removeFromAll] unloads the entity's id and nothing else:
    afterwards [get] finds nothing under that id, every other id reads
    as before and the table is untouched.  Removing an entity that is
    not loaded changes nothing, and adding a new entity and removing it
    again gives back the state there was. *)
Theorem removeFromAll_unloads (s : Self) (value : DBEntry) :
  let o := StashModule.removeFromAll value s in
  returned o = Ok tt ∧
  StashModule.get (entry_id value) (after o) = None ∧
  (∀ id, id ≠ entry_id value →
         StashModule.get id (after o) = StashModule.get id s) ∧
  table (after o) = table s ∧
  selectedIds (after o) = selectedIds s ∧
  (all s !! entry_id value = None →
     after o = s ∧
     after (StashModule.removeFromAll value (after (StashModule.addToAll value s))) = s).
Proof.
  intros o. subst o.
  unfold StashModule.removeFromAll, StashModule.get, mutate;
    cbn [returned after all table selectedIds with_all].
  split_and!; try done.
  - apply lookup_delete_eq.
  - intros id Hid. by apply lookup_delete_ne.
  - intros Hnew. split.
    + rewrite delete_id by done. apply with_all_same.
    + unfold StashModule.addToAll, StashModule.setAll, bind, ask, ret, mutate;
        cbn [returned after effects]. rewrite Hnew.
      cbn [returned after all with_all activeJournal selectedIds table].
      rewrite delete_insert_id by done. by destruct s.
Qed.

Lemma removeFromAll_unloads_witness :
  after (StashModule.removeFromAll Examples.sentence1
           (after (StashModule.addToAll Examples.sentence1 Examples.not_loaded)))
  = Examples.not_loaded.
Proof.
  exact (proj2 (proj2 (proj2 (proj2 (proj2 (proj2
           (removeFromAll_unloads Examples.not_loaded Examples.sentence1)))))
           eq_refl)).
Defined.

Lemma loaded_ids (m : gmap Z DBEntry) (id : Z) :
  id ∈ (map_to_list m).*1 ↔ is_Some (m !! id).
Proof.
  rewrite list_elem_of_fmap. split.
  - intros ([k e] & -> & Hin). apply elem_of_map_to_list in Hin. by eexists.
  - intros [e He]. exists (id, e). split; [done|]. by apply elem_of_map_to_list.
Qed.

(** X12. [vetIds] never returns a phony id: given a list, it returns
    exactly the loaded ids that occur in the list, each once; given
    nothing, it returns every loaded id, each once; given the empty
    list, it returns the empty list, not all ids. *)
Theorem vetIds_returns_loaded_ids_only (s : Self) (ids : list Z) (id : Z) :
  (id ∈ StashModule.vetIds (Some ids) s ↔ is_Some (StashModule.get id s) ∧ id ∈ ids) ∧
  (id ∈ StashModule.vetIds None s ↔ is_Some (StashModule.get id s)) ∧
  NoDup (StashModule.vetIds (Some ids) s) ∧
  NoDup (StashModule.vetIds None s) ∧
  StashModule.vetIds (Some []) s = [].
Proof.
  unfold StashModule.vetIds, StashModule.get. split_and!.
  - rewrite list_elem_of_filter, loaded_ids. tauto.
  - apply loaded_ids.
  - apply NoDup_filter, NoDup_fst_map_to_list.
  - apply NoDup_fst_map_to_list.
  - induction ((map_to_list (all s)).*1) as [|x l IH]; [done|].
    rewrite filter_cons_False by apply not_elem_of_nil. done.
Qed.

(** X13. In the legacy [updateStateAndDb], when the entity is loaded
    with another value and its row exists, both copies hold the value
    afterwards and every other row and entry is untouched.  The row is
    put only if it did not hold the value already, and the method
    returns nothing either way: [table.update] reports the one row
    that has the id. *)
Theorem legacy_update_writes_both_copies
    (s : Self) (id : Z) (key : string) (v : value)
    (entry : DBEntry) (f : gmap string value) :
  all s !! id = Some entry →
  fields entry !! key ≠ Some v →
  rows (table s) !! id = Some f →
  let o := StashModule.updateStateAndDb id key v s in
  all (after o) !! id = Some (set_field key v entry) ∧
  rows (table (after o)) !! id ≫= (.!! key) = Some v ∧
  returned o = Ok Void ∧
  effects o = (if strict_eq (f !! key) v
               then [StateWrite; Committed]
               else [StateWrite; TableWrite; Committed]) ∧
  (∀ id', id' ≠ id →
     rows (table (after o)) !! id' = rows (table s) !! id' ∧
     all (after o) !! id' = all s !! id').
Proof.
  intros Hst Hval Hrow o. subst o.
  rewrite (legacy_update_row_present_outcome s id key v entry f Hst Hval Hrow).
  cbn [returned after effects all table].
  destruct (strict_eq (f !! key) v) eqn:Heq.
  - apply strict_eq_true in Heq. rewrite lookup_insert_eq, Hrow. cbn.
    split_and!; try done. intros id' Hne. by rewrite lookup_insert_ne.
  - cbn [rows]. rewrite !lookup_insert_eq. cbn. rewrite lookup_insert_eq.
    split_and!; try done. intros id' Hne. by rewrite !lookup_insert_ne.
Qed.

Lemma legacy_update_writes_both_copies_witness :
  returned (StashModule.updateStateAndDb 1 "text" (VStr "b") Examples.loaded) = Ok Void.
Proof.
  refine (proj1 (proj2 (proj2 (legacy_update_writes_both_copies
            Examples.loaded 1 "text" (VStr "b") Examples.sentence1 (Sentence "a" 1)
            eq_refl _ eq_refl)))).
  vm_compute. discriminate.
Defined.

(** ** More on [SentencesModule] *)

Lemma fetch_with_parent_fulfils (w : Root) (j : Journal) (first : Z) (rest : list Z) :
  journals_active w = Some j → resources_selectedIds w = first :: rest →
  returned (SentencesModule.fetchResourceSentences w) = Ok tt.
Proof.
  intros Hj Hsel.
  unfold SentencesModule.fetchResourceSentences,
    SentencesModule.shift_selected_resource, bind, ask, ret, mutate; simpl.
  rewrite Hj, Hsel; simpl.
  by destruct (first =? 0)%Z.
Qed.

(** X14. [fetchResourceSentences] only reads the database and only
    writes in-memory state; the active journal stays.  It raises
    exactly when no journal is active: with an active journal it always
    fulfils, since an error of the final re-selection, which is not
    awaited, never reaches the caller. *)
Theorem fetch_only_reads_the_database (w : Root) :
  let o := SentencesModule.fetchResourceSentences w in
  db (after o) = db w ∧
  journals_active (after o) = journals_active w ∧
  only_state_writes (effects o) = true ∧
  returned o = match journals_active w with
               | Some _ => Ok tt
               | None => Throw (ActiveJournalNotSet "fetchResourceSentences")
               end.
Proof.
  intros o. subst o.
  destruct (journals_active w) as [j|] eqn:Hj.
  - destruct (resources_selectedIds w) as [|first rest] eqn:Hsel.
    + by rewrite (fetch_without_parent w j Hj Hsel).
    + destruct (fetch_with_parent w j first rest Hj Hsel) as (_ & Hd & Hj' & He).
      rewrite Hd, Hj', He.
      by rewrite (fetch_with_parent_fulfils w j first rest Hj Hsel).
  - by rewrite (fetch_without_journal w Hj).
Qed.

(** X15. [new] leaves the in-memory state and the relationship table
    alone, keeps every row the table had, and is all or nothing: if it
    raises, nothing whatsoever has changed. *)
Theorem new_is_all_or_nothing (w : Root) (texts : one_or_many string) :
  let o := SentencesModule.new texts w in
  journals_active (after o) = journals_active w ∧
  resources_selectedIds (after o) = resources_selectedIds w ∧
  sentences_all (after o) = sentences_all w ∧
  sentences_selectedIds (after o) = sentences_selectedIds w ∧
  sentencesInResources (db (after o)) = sentencesInResources (db w) ∧
  (∀ id f, rows (sentences (db w)) !! id = Some f →
           rows (sentences (db (after o))) !! id = Some f) ∧
  (∀ e, returned o = Throw e → after o = w).
Proof.
  intros o. subst o.
  destruct (journals_active w) as [j|] eqn:Hj.
  2:{ by rewrite (new_without_journal w texts Hj). }
  destruct (decide (journal_id j = 0%Z)) as [H0|H0].
  { by rewrite (new_with_journal_0 w texts j Hj H0). }
  rewrite (new_with_journal w texts j Hj H0). cbv zeta.
  destruct (returned _) as [ids|e] eqn:Hret; cbn [returned after]; [|done].
  split_and!; try done.
  intros id f Hid. cbn. by apply bulkAdd_keeps.
Qed.

(** On success the keys are the next values of the key generator. *)
Lemma bulkAdd_fresh_keys (items : list (gmap string value)) (t : Table) (keys : list Z) :
  returned (Dexie.bulkAdd items t) = Ok keys →
  keys = seqZ (keyGen t) (Z.of_nat (length items)) ∧
  keyGen (after (Dexie.bulkAdd items t)) = (keyGen t + Z.of_nat (length items))%Z ∧
  (∀ k, k ∈ keys → rows t !! k = None) ∧
  (∀ k, k ∉ keys → rows (after (Dexie.bulkAdd items t)) !! k = rows t !! k).
Proof.
  revert t keys. induction items as [|item items IH]; intros t keys.
  - simpl. intros [= <-]. split_and!; try done; [lia|].
    intros k Hk. by apply elem_of_nil in Hk.
  - rewrite bulkAdd_cons.
    destruct (rows t !! keyGen t) eqn:Hfree; [done|]. cbv zeta.
    destruct (returned (Dexie.bulkAdd items _)) as [keys'|e] eqn:Hret; [|done].
    cbn [returned after]. intros [= <-].
    destruct (IH _ _ Hret) as (Hkeys & Hgen & Hnone & Hother). cbn [keyGen rows] in *.
    split_and!.
    + rewrite seqZ_cons by (cbn [length]; lia). f_equal. rewrite Hkeys.
      f_equal; cbn [length]; lia.
    + rewrite Hgen. cbn [length]. lia.
    + intros k [->|Hk]%elem_of_cons; [done|].
      apply Hnone in Hk. by apply lookup_insert_None in Hk as [Hk _].
    + intros k Hk. apply not_elem_of_cons in Hk as [Hne Hk].
      rewrite (Hother k Hk). by rewrite lookup_insert_ne.
Qed.

Lemma bulkAdd_keeps_generator_ahead (items : list (gmap string value)) (t : Table) :
  key_generator_ahead t → key_generator_ahead (after (Dexie.bulkAdd items t)).
Proof.
  revert t. induction items as [|item items IH]; intros t Hgen; [done|].
  rewrite bulkAdd_cons. rewrite (key_generator_free t (keyGen t)) by (done || lia).
  cbv zeta.
  assert (key_generator_ahead
            (after (Dexie.bulkAdd items
                      (mkTable (<[keyGen t := item]> (rows t)) (keyGen t + 1))))) as Hafter.
  { apply IH. unfold key_generator_ahead; simpl. apply map_Forall_insert_2; [lia|].
    intros k f Hkf. apply Hgen in Hkf. lia. }
  by destruct (returned _).
Qed.

(** X16. When [new] succeeds, the ids it returns are the next values
    of the table's key generator, one per text: they are pairwise
    distinct, none of them was in use before, and the generator has
    moved past them; if the generator was ahead of every key in use, it
    still is. *)
Theorem new_returns_fresh_ids
    (w : Root) (texts : one_or_many string) (ids : list Z) :
  returned (SentencesModule.new texts w) = Ok ids →
  let o := SentencesModule.new texts w in
  let n := Z.of_nat (length (Util.wrapInArray texts)) in
  ids = seqZ (keyGen (sentences (db w))) n ∧
  NoDup ids ∧
  (∀ id, id ∈ ids → rows (sentences (db w)) !! id = None) ∧
  keyGen (sentences (db (after o))) = (keyGen (sentences (db w)) + n)%Z ∧
  (key_generator_ahead (sentences (db w)) →
   key_generator_ahead (sentences (db (after o)))).
Proof.
  intros Hret o n. subst o n. revert Hret.
  destruct (journals_active w) as [j|] eqn:Hj.
  2:{ by rewrite (new_without_journal w texts Hj). }
  destruct (decide (journal_id j = 0%Z)) as [H0|H0].
  { by rewrite (new_with_journal_0 w texts j Hj H0). }
  rewrite (new_with_journal w texts j Hj H0). cbv zeta.
  set (items := (λ text, Sentence text (journal_id j)) <$> Util.wrapInArray texts).
  pose proof (bulkAdd_keeps_generator_ahead items (sentences (db w))) as Hahead.
  destruct (returned (Dexie.bulkAdd items (sentences (db w)))) as [ids'|e] eqn:Hadded;
    cbn [returned after]; [|done].
  intros [= ->].
  destruct (bulkAdd_fresh_keys items _ _ Hadded) as (Hkeys & Hgen & Hnone & _).
  subst items. rewrite length_fmap in Hkeys, Hgen.
  split_and!; try done.
  rewrite Hkeys. apply NoDup_seqZ.
Qed.

Lemma new_returns_fresh_ids_witness :
  [3; 4]%Z = seqZ (keyGen (sentences (db Examples.root)))
                  (Z.of_nat (length (Util.wrapInArray (Many ["x"; "y"])))).
Proof.
  refine (proj1 (new_returns_fresh_ids Examples.root (Many ["x"; "y"]) [3; 4]%Z _)).
  vm_compute. reflexivity.
Defined.

Lemma lookup_foldr_delete (m : gmap Z (gmap string value)) (ids : list Z) (k : Z) :
  foldr delete m ids !! k = if bool_decide (k ∈ ids) then None else m !! k.
Proof.
  induction ids as [|id ids IH]; cbn [foldr].
  - rewrite bool_decide_eq_false_2; [done|]. apply not_elem_of_nil.
  - destruct (decide (id = k)) as [->|Hne].
    + rewrite lookup_delete_eq. rewrite bool_decide_eq_true_2; [done|].
      apply list_elem_of_here.
    + rewrite lookup_delete_ne by done. rewrite IH.
      case_bool_decide as Hin.
      * rewrite bool_decide_eq_true_2; [done|]. by apply list_elem_of_further.
      * rewrite bool_decide_eq_false_2; [done|].
        intros [Heq|Hin']%elem_of_cons; [by subst|done].
Qed.

(** X17. Whatever [delete] returns, afterwards no row is left under
    any of the given ids and no link refers to any of them, while every
    other row and every other link is as before; the key generator is
    not moved back, so a deleted id is not handed out again. *)
Theorem delete_removes_rows_and_links
    (w : Root) (sentenceIds : one_or_many Z) :
  let o := SentencesModule.delete sentenceIds w in
  let ids := Util.wrapInArray sentenceIds in
  (∀ id, rows (sentences (db (after o))) !! id
         = if bool_decide (id ∈ ids) then None else rows (sentences (db w)) !! id) ∧
  (∀ link, link ∈ sentencesInResources (db (after o)) ↔
           link ∈ sentencesInResources (db w) ∧ sentenceId link ∉ ids) ∧
  keyGen (sentences (db (after o))) = keyGen (sentences (db w)).
Proof.
  intros o ids. subst o ids.
  destruct (delete_always_deletes w sentenceIds) as [-> _].
  unfold without_sentences; cbn [sentences sentencesInResources rows keyGen].
  split_and!; try done.
  - intros id. apply lookup_foldr_delete.
  - intros link. rewrite list_elem_of_filter. tauto.
Qed.





(** X19. Creating sentences and deleting the returned ids gives back
    the rows there were: after [new] has returned its ids, [delete] of
    exactly these ids leaves the table with the same rows as before
    [new], whatever [delete] itself returns. *)
Theorem new_then_delete_restores_rows
    (w : Root) (texts : one_or_many string) (ids : list Z) :
  returned (SentencesModule.new texts w) = Ok ids →
  let created := after (SentencesModule.new texts w) in
  rows (sentences (db (after (SentencesModule.delete (Many ids) created))))
  = rows (sentences (db w)).
Proof.
  intros Hret created. subst created.
  destruct (delete_always_deletes (after (SentencesModule.new texts w)) (Many ids))
    as [-> _].
  unfold without_sentences; cbn [sentences rows Util.wrapInArray].
  revert Hret.
  destruct (journals_active w) as [j|] eqn:Hj.
  2:{ by rewrite (new_without_journal w texts Hj). }
  destruct (decide (journal_id j = 0%Z)) as [H0|H0].
  { by rewrite (new_with_journal_0 w texts j Hj H0). }
  rewrite (new_with_journal w texts j Hj H0). cbv zeta.
  set (items := (λ text, Sentence text (journal_id j)) <$> Util.wrapInArray texts).
  destruct (returned (Dexie.bulkAdd items (sentences (db w)))) as [ids'|e] eqn:Hadded;
    cbn [returned after]; [|done].
  intros [= ->].
  destruct (bulkAdd_fresh_keys items _ _ Hadded) as (_ & _ & Hnone & Hother).
  apply map_eq. intros k. rewrite lookup_foldr_delete. cbn.
  case_bool_decide as Hin.
  - symmetry. by apply Hnone.
  - by apply Hother.
Qed.

Lemma new_then_delete_restores_rows_witness :
  rows (sentences (db (after (SentencesModule.delete (Many [3; 4]%Z)
                                (after (SentencesModule.new (Many ["x"; "y"])
                                          Examples.root))))))
  = rows (sentences (db Examples.root)).
Proof.
  refine (new_then_delete_restores_rows Examples.root (Many ["x"; "y"]) [3; 4]%Z _).
  vm_compute. reflexivity.
Defined.

(** ** [putSentencesInResource] *)

Section relink_frame.

Variable putSentenceInResource : Z → Z → Z → WordPouch → result WordPouch.

Lemma relink_step_frame (sentence resource journal : Z) (w : Root) :
  (∃ d, SentencesModule.run_putSentenceInResource putSentenceInResource
          sentence resource journal w = Outcome (Ok tt) (with_db d w) [TableWrite]) ∨
  (∃ e, SentencesModule.run_putSentenceInResource putSentenceInResource
          sentence resource journal w = Outcome (Throw e) w []).
Proof.
  unfold SentencesModule.run_putSentenceInResource.
  destruct (putSentenceInResource sentence resource journal (db w)) as [d|e];
    [left|right]; by eexists.
Qed.

(** The loop over the sentences changes the database only. *)
Lemma relink_loop_frame (ids : list Z) (resource journal : Z) (w : Root) :
  ∃ d, after (forEach (λ sentence,
                SentencesModule.run_putSentenceInResource putSentenceInResource
                  sentence resource journal) ids w) = with_db d w.
Proof.
  revert w. induction ids as [|id ids IH]; intros w.
  - exists (db w). simpl. by rewrite with_db_same.
  - simpl. destruct (relink_step_frame id resource journal w) as [[d Hd]|[e He]].
    + rewrite (bind_Ok _ _ _ _ _ _ Hd). cbn [after].
      destruct (IH (with_db d w)) as [d' Hd']. exists d'. rewrite Hd'. by destruct w.
    + rewrite (bind_Throw _ _ _ _ _ _ He). exists (db w). cbn [after].
      by rewrite with_db_same.
Qed.

Lemma putSentencesInResource_cases (ids : list Z) (resource : Z) (w : Root) :
  SentencesModule.putSentencesInResource putSentenceInResource ids resource w
  = match journals_active w with
    | None => Outcome (Throw (ActiveJournalNotSet "putSentencesInResource")) w []
    | Some j =>
        if (journal_id j =? 0)%Z
        then Outcome (Throw (ActiveJournalNotSet "putSentencesInResource")) w []
        else Dexie.transaction db with_db
               (forEach (λ sentence,
                  SentencesModule.run_putSentenceInResource putSentenceInResource
                    sentence resource (journal_id j)) ids) w
    end.
Proof.
  unfold SentencesModule.putSentencesInResource, bind, ask; cbn [returned after effects].
  destruct (journals_active w) as [j|]; cbn [fmap option_fmap option_map]; [|done].
  destruct (journal_id j =? 0)%Z; [done|].
  cbn [app]. by destruct (Dexie.transaction _ _ _ w).
Qed.

End relink_frame.

(** X20. Whatever [putSentenceInResource] does to the database,
    [putSentencesInResource] requires an active journal (without one it
    raises and changes nothing), never touches the in-memory state, and
    is all or nothing: if putting any of the sentences fails, the
    database is as it was. *)
Theorem putSentencesInResource_is_all_or_nothing
    (putSentenceInResource : Z → Z → Z → WordPouch → result WordPouch)
    (w : Root) (sentenceIds : list Z) (resource : Z) :
  let o := SentencesModule.putSentencesInResource putSentenceInResource
             sentenceIds resource w in
  (journals_active w = None →
     returned o = Throw (ActiveJournalNotSet "putSentencesInResource") ∧ after o = w) ∧
  journals_active (after o) = journals_active w ∧
  resources_selectedIds (after o) = resources_selectedIds w ∧
  sentences_all (after o) = sentences_all w ∧
  sentences_selectedIds (after o) = sentences_selectedIds w ∧
  (∀ e, returned o = Throw e → after o = w).
Proof.
  intros o. subst o. rewrite putSentencesInResource_cases.
  destruct (journals_active w) as [j|] eqn:Hj; [|by split_and!].
  destruct (journal_id j =? 0)%Z; [by split_and!|].
  unfold Dexie.transaction.
  destruct (relink_loop_frame putSentenceInResource sentenceIds resource (journal_id j) w)
    as [d Hd].
  destruct (forEach _ sentenceIds w) as [[r|e] w' t]; cbn [returned after] in *;
    subst w'.
  - by split_and!.
  - split_and!; try done. intros _ _. by destruct w.
Qed.

Lemma new_is_all_or_nothing_witness :
  after (SentencesModule.new (One "x") (mkRoot None [] ∅ [] (mkDb Examples.sentences_table [])))
  = mkRoot None [] ∅ [] (mkDb Examples.sentences_table []).
Proof.
  exact (proj2 (proj2 (proj2 (proj2 (proj2 (proj2
           (new_is_all_or_nothing
              (mkRoot None [] ∅ [] (mkDb Examples.sentences_table [])) (One "x")))))))
           (ActiveJournalNotSet "new") eq_refl).
Defined.

Lemma putSentencesInResource_is_all_or_nothing_witness :
  after (SentencesModule.putSentencesInResource (λ _ _ _ d, Ok d) [1%Z] 5
           (mkRoot None [] ∅ [] (mkDb Examples.sentences_table [])))
  = mkRoot None [] ∅ [] (mkDb Examples.sentences_table []).
Proof.
  exact (proj2 (proj1 (putSentencesInResource_is_all_or_nothing (λ _ _ _ d, Ok d)
           (mkRoot None [] ∅ [] (mkDb Examples.sentences_table [])) [1%Z] 5) eq_refl)).
Defined.

(** ** The selection mutations of the collection store *)

Section collection_selection.

Context {CollectionList : Type} (id : CollectionList → string).

Lemma findIndex_same_id_None (lst : CollectionList) (selected : list CollectionList) :
  findIndex (Collection.same_id id lst) selected = None ↔ id lst ∉ id <$> selected.
Proof.
  induction selected as [|y l IH]; cbn [findIndex fmap list_fmap].
  - split; [intros _; apply not_elem_of_nil|done].
  - unfold Collection.same_id at 1. case_bool_decide as Hy.
    + split; [done|]. intros Hnot. exfalso. apply Hnot. rewrite Hy. apply list_elem_of_here.
    + rewrite not_elem_of_cons, <- IH.
      destruct (findIndex _ l); cbn; [by split; [|intros [_ ?]]|].
      split; [|done]. intros _. split; [congruence|done].
Qed.

Lemma DESELECT_LIST_cons (lst y : CollectionList) (selected : list CollectionList) :
  Collection.DESELECT_LIST id lst (y :: selected)
  = if bool_decide (id y = id lst) then selected
    else y :: Collection.DESELECT_LIST id lst selected.
Proof.
  unfold Collection.DESELECT_LIST; cbn [findIndex]. unfold Collection.same_id at 1.
  case_bool_decide; [done|]. by destruct (findIndex _ selected).
Qed.

Lemma filter_keeps_all (P : CollectionList → Prop) `{∀ x, Decision (P x)}
    (l : list CollectionList) :
  (∀ x, x ∈ l → P x) → filter P l = l.
Proof.
  induction l as [|x l IH]; intros Hall; [done|].
  rewrite filter_cons_True by (apply Hall, list_elem_of_here).
  rewrite IH; [done|]. intros y Hy. apply Hall. by apply list_elem_of_further.
Qed.

(** X21. [SELECT_LIST] keeps the ids of the selected lists distinct:
    a list whose id is already selected is not added again, a new one
    is appended at the end and the lists selected before keep their
    places.  Afterwards the id is selected, and selecting the same list
    again changes nothing. *)
Theorem SELECT_LIST_keeps_ids_distinct
    (lst : CollectionList) (selected : list CollectionList) :
  NoDup (id <$> selected) →
  let now := Collection.SELECT_LIST id lst selected in
  NoDup (id <$> now) ∧
  id lst ∈ id <$> now ∧
  selected `prefix_of` now ∧
  (id lst ∈ id <$> selected → now = selected) ∧
  (id lst ∉ id <$> selected → now = selected ++ [lst]) ∧
  Collection.SELECT_LIST id lst now = now.
Proof.
  intros Hnodup now. subst now.
  destruct (findIndex (Collection.same_id id lst) selected) as [i|] eqn:Hfind.
  - assert (id lst ∈ id <$> selected) as Hin.
    { destruct (decide (id lst ∈ id <$> selected)) as [|Hnot]; [done|].
      apply findIndex_same_id_None in Hnot. congruence. }
    assert (Collection.SELECT_LIST id lst selected = selected) as ->.
    { unfold Collection.SELECT_LIST. by rewrite Hfind. }
    split_and!; try done.
    unfold Collection.SELECT_LIST. by rewrite Hfind.
  - assert (id lst ∉ id <$> selected) as Hnot by by apply findIndex_same_id_None.
    assert (Collection.SELECT_LIST id lst selected = selected ++ [lst]) as ->.
    { unfold Collection.SELECT_LIST. by rewrite Hfind. }
    assert (id lst ∈ id <$> selected ++ [lst]) as Hin.
    { rewrite fmap_app. apply elem_of_app. right. apply list_elem_of_here. }
    split_and!; try done.
    + rewrite fmap_app. apply NoDup_app. split_and!; [done| |apply NoDup_singleton].
      intros x Hx ->%list_elem_of_singleton. done.
    + by apply prefix_app_r.
    + unfold Collection.SELECT_LIST.
      destruct (findIndex (Collection.same_id id lst) (selected ++ [lst])) as [i|] eqn:Hagain;
        [done|].
      by apply findIndex_same_id_None in Hagain.
Qed.

(** X22. With distinct ids selected, [DESELECT_LIST] removes the list
    with the given id and keeps all others in order, so that id is not
    selected afterwards; deselecting an id that is not selected changes
    nothing, and selecting a new list and deselecting it again gives
    back the selection there was. *)
Theorem DESELECT_LIST_removes_the_id
    (lst : CollectionList) (selected : list CollectionList) :
  NoDup (id <$> selected) →
  let now := Collection.DESELECT_LIST id lst selected in
  now = filter (λ l, id l ≠ id lst) selected ∧
  (id lst ∉ id <$> now) ∧
  (id lst ∉ id <$> selected →
     now = selected ∧
     Collection.DESELECT_LIST id lst (Collection.SELECT_LIST id lst selected) = selected).
Proof.
  intros Hnodup now. subst now.
  assert (Collection.DESELECT_LIST id lst selected
          = filter (λ l, id l ≠ id lst) selected) as Hfilter.
  { induction selected as [|y l IH]; [done|].
    rewrite fmap_cons in Hnodup. apply NoDup_cons in Hnodup as [Hy Hl].
    rewrite DESELECT_LIST_cons. case_bool_decide as Heq.
    - rewrite filter_cons_False by (intros Hne; by apply Hne).
      symmetry. apply filter_keeps_all. intros x Hx Hsame.
      apply Hy. rewrite Heq, <- Hsame. by apply list_elem_of_fmap_2.
    - rewrite filter_cons_True by done. by rewrite IH. }
  split_and!; [done| |].
  - rewrite Hfilter. intros (x & Hx & Hin)%list_elem_of_fmap.
    apply list_elem_of_filter in Hin as [Hne _]. by apply Hne.
  - intros Hnot. split.
    + rewrite Hfilter. apply filter_keeps_all. intros x Hx Hsame.
      apply Hnot. rewrite <- Hsame. by apply list_elem_of_fmap_2.
    + assert (Collection.SELECT_LIST id lst selected = selected ++ [lst]) as ->.
      { unfold Collection.SELECT_LIST.
        by rewrite (proj2 (findIndex_same_id_None lst selected) Hnot). }
      clear Hnodup Hfilter. induction selected as [|y l IH].
      * cbn [app]. rewrite DESELECT_LIST_cons. by rewrite bool_decide_eq_true_2.
      * cbn [app]. rewrite DESELECT_LIST_cons.
        rewrite fmap_cons in Hnot. apply not_elem_of_cons in Hnot as [Hne Hnot].
        rewrite bool_decide_eq_false_2 by congruence. by rewrite IH.
Qed.

End collection_selection.

Lemma SELECT_LIST_keeps_ids_distinct_witness :
  NoDup ((λ name : string, name) <$> Collection.SELECT_LIST (λ name, name) "b" ["a"]).
Proof.
  refine (proj1 (SELECT_LIST_keeps_ids_distinct (λ name : string, name) "b" ["a"] _)).
  apply NoDup_singleton.
Defined.

Lemma DESELECT_LIST_removes_the_id_witness :
  Collection.DESELECT_LIST (λ name : string, name) "a" ["a"; "b"]
  = filter (λ l, l ≠ "a") ["a"; "b"].
Proof.
  refine (proj1 (DESELECT_LIST_removes_the_id (λ name : string, name) "a" ["a"; "b"] _)).
  apply (bool_decide_unpack _). vm_compute. exact I.
Defined.
